(** * Window handles of the js-adapter: a shallow embedding of
    [src/api/window/window.ts]

    The file follows the source top-down: JavaScript values and promises,
    the event emitter a handle inherits, the [_Window] class (creation
    handshake, group resolver, one-call-one-RPC methods, [close]) and the
    [_WindowModule] factory.  Asynchronous code is modelled at the
    granularity of the JavaScript event loop: one step of the model is one
    task delivered by the runtime (a notification, the settlement of an
    RPC) followed by all promise reactions it triggers. *)

From Stdlib Require Import QArith Qround.
From stdpp Require Import gmap strings list fin_maps.

#[local] Set Warnings "-register-all".
#[local] Open Scope string_scope.
#[local] Open Scope list_scope.

(** ** JavaScript values *)

Module Js.

(** A JavaScript [number].  Finite doubles are a subset of the rationals and
    [Math.floor] is exact on them, so a finite number is carried as a
    rational; the three non-finite values are kept apart because
    [Math.floor] returns them unchanged. *)
Inductive number :=
  | Finite (q : Q)
  | NaN
  | PosInf
  | NegInf.

Definition Math_floor (n : number) : number :=
  match n with
  | Finite q => Finite (inject_Z (Qfloor q))
  | NaN => NaN
  | PosInf => PosInf
  | NegInf => NegInf
  end.

(** A finite number with no fractional part. *)
Definition is_integer (n : number) : bool :=
  match n with
  | Finite q => Qeq_bool q (inject_Z (Qfloor q))
  | _ => false
  end.

(** Values that travel in RPC payloads.  An object is a finite map from
    property names to values. *)
Inductive value :=
  | VUndefined
  | VBool (b : bool)
  | VNumber (n : number)
  | VString (s : string)
  | VObject (fields : gmap string value).

(** [Object.assign({}, a, b)]: the properties of [a], then those of [b],
    a later source overwriting an earlier one. *)
Definition Object_assign (a b : gmap string value) : gmap string value :=
  b ∪ a.

(** What a [throw] carries in the code modelled here.
    [TypeError_not_a_function p] is what the engine raises for [o.p(...)]
    when [o.p] is [undefined].  [ClosedError] is the [Closed] error kind of
    the specification; no statement of window.ts constructs it. *)
Inductive exception :=
  | TypeError_not_a_function (prop : string)
  | ClosedError.

(** The three states of a promise: [A] is the type of fulfilment values and
    [R] that of rejection reasons. *)
Inductive promise (A R : Type) :=
  | Pending
  | Fulfilled (a : A)
  | Rejected (r : R).
Arguments Pending {A R}.
Arguments Fulfilled {A R} a.
Arguments Rejected {A R} r.

(** The [resolve] and [reject] functions handed to a promise executor: the
    first call settles the promise, every later call is ignored. *)
Definition resolve {A R} (a : A) (p : promise A R) : promise A R :=
  match p with
  | Pending => Fulfilled a
  | _ => p
  end.

Definition reject {A R} (r : R) (p : promise A R) : promise A R :=
  match p with
  | Pending => Rejected r
  | _ => p
  end.

Definition settled {A R} (p : promise A R) : bool :=
  match p with
  | Pending => false
  | _ => true
  end.

(** [Promise.all([p, q])] as a function of the current states of [p] and
    [q]: fulfilled once both are, rejected as soon as one is. *)
Definition Promise_all {A B R} (p : promise A R) (q : promise B R)
  : promise (A * B) R :=
  match p, q with
  | Rejected r, _ => Rejected r
  | _, Rejected r => Rejected r
  | Fulfilled a, Fulfilled b => Fulfilled (a, b)
  | _, _ => Pending
  end.

End Js.

(** ** The event emitter of a handle *)

Module Emitter.

Section Registry.

Context {L : Type} `{EqDecision L}.

(** Modelled from the spec: the listener registry of a handle ([on],
    [removeListener] and delivery are inherited from a base class that is
    not part of window.ts).  Section 4.2 of the specification describes a
    standard multi-consumer publish/subscribe whose registration and removal
    only affect local dispatch: the registry is the list of (topic,
    listener) registrations in the order they were made, and
    [on(topic, fn)] adds one registration at the end. *)
Definition on (topic : string) (fn : L) (reg : list (string * L))
  : list (string * L) :=
  reg ++ [(topic, fn)].

(** Removes the first registration equal to [x], if there is one. *)
Fixpoint remove_one (x : string * L) (reg : list (string * L))
  : list (string * L) :=
  match reg with
  | [] => []
  | y :: reg' => if decide (x = y) then reg' else y :: remove_one x reg'
  end.

(** Modelled from the spec: [removeListener(topic, fn)] removes one
    registration of [fn] under [topic] (the most recent one), immediately
    and without network effect. *)
Definition removeListener (topic : string) (fn : L)
    (reg : list (string * L)) : list (string * L) :=
  reverse (remove_one (topic, fn) (reverse reg)).

(** Modelled from the spec: the listeners a notification on [topic] is
    delivered to, in registration order.  Delivery works on this snapshot. *)
Definition listeners (topic : string) (reg : list (string * L)) : list L :=
  (filter (λ x, x.1 = topic) reg).*2.

End Registry.

End Emitter.

(** ** The [_Window] class *)

Module Window.

Import Js.

(** The [name] property of an identity object.  window.ts builds
    [{ uuid }] for an external window, an object without the key, and
    [{ uuid, name }] for a window, an object that has the key even when the
    value is [undefined]; [Object.assign] copies the key in the second case
    and not in the first, so the two are kept apart. *)
Inductive Name :=
  | name_absent
  | name_undefined
  | named (s : string).

#[global] Instance Name_eq_dec : EqDecision Name.
Proof. solve_decision. Defined.

(** [Identity] of identity.ts (imported by window.ts, its declaration is
    not in the file). *)
Record Identity := {
  uuid : string;
  name : Name
}.

#[global] Instance Identity_eq_dec : EqDecision Identity.
Proof. solve_decision. Defined.

(** The identity as the object that [Object.assign] copies into a
    payload. *)
Definition identity_object (i : Identity) : gmap string value :=
  match name i with
  | named n => {[ "uuid" := VString (uuid i); "name" := VString n ]}
  | name_undefined => {[ "uuid" := VString (uuid i); "name" := VUndefined ]}
  | name_absent => {[ "uuid" := VString (uuid i) ]}
  end.

(** [GroupWindowIdentity]: one entry of the list the runtime returns for a
    group query; the flag may be absent. *)
Record GroupWindowIdentity := {
  g_uuid : string;
  g_name : option string;
  isExternalWindow : option bool
}.

(** [WindowMovementOptions]. *)
Record WindowMovementOptions := {
  moveIndependently : bool
}.

Definition movement_options_value (o : WindowMovementOptions) : value :=
  VObject {[ "moveIndependently" := VBool (moveIndependently o) ]}.

(** The default value of the [options] parameter of the movement methods,
    [{ moveIndependently: false }]. *)
Definition default_movement_options : WindowMovementOptions :=
  {| moveIndependently := false |}.

(** A request sent with [wire.sendAction(topic, payload)]. *)
Record Action := {
  topic : string;
  payload : gmap string value
}.

(** The names of the methods the class body of [_Window] declares: they
    are the properties of [_Window.prototype]. *)
Definition Window_prototype : list string :=
  [ "createWindow"; "windowListFromNameList"; "getAllFrames"; "getBounds";
    "focus"; "center"; "blur"; "bringToFront"; "animate"; "hide"; "close";
    "getNativeId"; "disableFrame"; "disableUserMovement"; "enableFrame";
    "enableUserMovement"; "flash";
    "stopFlashing"; "getGroup"; "getInfo"; "getOptions";
    "getParentApplication"; "getParentWindow"; "getSnapshot"; "getState";
    "getWebWindow"; "isMainWindow"; "isShowing"; "joinGroup"; "reload";
    "leaveGroup"; "maximize"; "mergeGroups"; "minimize"; "moveBy"; "moveTo";
    "resizeBy"; "resizeTo"; "restore"; "setAsForeground"; "setBounds";
    "show"; "showAt"; "showDeveloperTools"; "updateOptions";
    "authenticate" ].

(** A window handle: its identity and its prototype link.  [prototype] is
    [Some] of the method table after [new _Window(wire, identity)] and
    [None] after [Object.setPrototypeOf(this, null)]. *)
Record _Window := {
  identity : Identity;
  prototype : option (list string)
}.

(** [new _Window(wire, identity)]. *)
Definition new_Window (i : Identity) : _Window :=
  {| identity := i; prototype := Some Window_prototype |}.

(** [new ExternalWindow(wire, identity)]: the foreign handle. *)
Record ExternalWindow := {
  ext_identity : Identity
}.

(** An element of [Array<_Window | ExternalWindow>]. *)
Inductive GroupMember :=
  | Local (w : _Window)
  | Foreign (e : ExternalWindow).

Definition member_identity (m : GroupMember) : Identity :=
  match m with
  | Local w => identity w
  | Foreign e => ext_identity e
  end.

Definition is_foreign (m : GroupMember) : bool :=
  match m with
  | Local _ => false
  | Foreign _ => true
  end.

(** Truthiness of an optional boolean property: [undefined] and [false]
    are falsy. *)
Definition truthy (b : option bool) : bool := default false b.

(** The [name] key of the literal [{ uuid, name }] built from a
    destructured entry: the key is there, [undefined] when the entry has no
    name. *)
Definition entry_name (n : option string) : Name :=
  match n with
  | Some s => named s
  | None => name_undefined
  end.

(** [windowListFromNameList]: the callback of [identityList.map]. *)
Definition window_from_name (e : GroupWindowIdentity) : GroupMember :=
  if truthy (isExternalWindow e)
  then Foreign {| ext_identity := {| uuid := g_uuid e; name := name_absent |} |}
  else Local (new_Window {| uuid := g_uuid e;
                            name := entry_name (g_name e) |}).

Definition windowListFromNameList (identityList : list GroupWindowIdentity)
  : list GroupMember :=
  window_from_name <$> identityList.

(** The [then] callback of [getGroup], applied to [payload.data]. *)
Definition getGroup_then (data : list GroupWindowIdentity)
  : list GroupMember :=
  let winGroup := [] in
  if bool_decide (length data ≠ 0)
  then windowListFromNameList data
  else winGroup.

(** The documentation of [getGroup] in window.ts: "If a window is not in a
    group an empty array is returned."  This is the reply of the runtime for
    an ungrouped window. *)
Definition ungrouped_reply : list GroupWindowIdentity := [].

(** The entry of a runtime reply that denotes the window [i] itself. *)
Definition self_entry (i : Identity) : GroupWindowIdentity :=
  {| g_uuid := uuid i;
     g_name := match name i with
               | named s => Some s
               | _ => None
               end;
     isExternalWindow := Some false |}.

(** *** The one-call-one-RPC methods *)

(** A call of one of the methods of [_Window] that consist of a single
    [wire.sendAction], with its arguments.  An optional argument is [None]
    when the caller leaves it out. *)
Inductive Call :=
  | getAllFrames
  | getBounds
  | focus
  | center
  | blur
  | bringToFront
  | animate (transitions options : value)
  | hide
  | close (force : option bool)
  | getNativeId
  | disableFrame
  | disableUserMovement
  | enableFrame
  | enableUserMovement
  | flash
  | stopFlashing
  | getGroup
  | getInfo
  | getOptions
  | getSnapshot (area : value)
  | getState
  | isShowing
  | joinGroup (target : Identity)
  | reload (ignoreCache : option bool)
  | leaveGroup
  | maximize
  | mergeGroups (target : Identity)
  | minimize
  | moveBy (deltaLeft deltaTop : number) (options : option WindowMovementOptions)
  | moveTo (left top : number) (options : option WindowMovementOptions)
  | resizeBy (deltaWidth deltaHeight : number) (anchor : value)
      (options : option WindowMovementOptions)
  | resizeTo (width height : number) (anchor : value)
      (options : option WindowMovementOptions)
  | restore
  | setAsForeground
  | setBounds (bounds : gmap string value)
      (options : option WindowMovementOptions)
  | show (force : option bool)
  | showAt (left top : number) (force : option bool)
      (options : option WindowMovementOptions)
  | showDeveloperTools
  | updateOptions (options : value)
  | authenticate (userName password : string).

Definition method_name (c : Call) : string :=
  match c with
  | getAllFrames => "getAllFrames"
  | getBounds => "getBounds"
  | focus => "focus"
  | center => "center"
  | blur => "blur"
  | bringToFront => "bringToFront"
  | animate _ _ => "animate"
  | hide => "hide"
  | close _ => "close"
  | getNativeId => "getNativeId"
  | disableFrame => "disableFrame"
  | disableUserMovement => "disableUserMovement"
  | enableFrame => "enableFrame"
  | enableUserMovement => "enableUserMovement"
  | flash => "flash"
  | stopFlashing => "stopFlashing"
  | getGroup => "getGroup"
  | getInfo => "getInfo"
  | getOptions => "getOptions"
  | getSnapshot _ => "getSnapshot"
  | getState => "getState"
  | isShowing => "isShowing"
  | joinGroup _ => "joinGroup"
  | reload _ => "reload"
  | leaveGroup => "leaveGroup"
  | maximize => "maximize"
  | mergeGroups _ => "mergeGroups"
  | minimize => "minimize"
  | moveBy _ _ _ => "moveBy"
  | moveTo _ _ _ => "moveTo"
  | resizeBy _ _ _ _ => "resizeBy"
  | resizeTo _ _ _ _ => "resizeTo"
  | restore => "restore"
  | setAsForeground => "setAsForeground"
  | setBounds _ _ => "setBounds"
  | show _ => "show"
  | showAt _ _ _ _ => "showAt"
  | showDeveloperTools => "showDeveloperTools"
  | updateOptions _ => "updateOptions"
  | authenticate _ _ => "authenticate"
  end.

Definition options_value (options : option WindowMovementOptions) : value :=
  movement_options_value (default default_movement_options options).

Definition name_value (n : Name) : value :=
  match n with
  | named s => VString s
  | _ => VUndefined
  end.

(** [Object.assign({}, extra, this.identity)]. *)
Definition with_identity (extra : gmap string value) (i : Identity)
  : gmap string value :=
  Object_assign (Object_assign ∅ extra) (identity_object i).

(** The body of each method: the topic and the payload it hands to
    [wire.sendAction]. *)
Definition request (i : Identity) (c : Call) : Action :=
  match c with
  | getAllFrames => {| topic := "get-all-frames"; payload := identity_object i |}
  | getBounds => {| topic := "get-window-bounds"; payload := identity_object i |}
  | focus => {| topic := "focus-window"; payload := identity_object i |}
  | center => {| topic := "center-window"; payload := identity_object i |}
  | blur => {| topic := "blur-window"; payload := identity_object i |}
  | bringToFront =>
      {| topic := "bring-window-to-front"; payload := identity_object i |}
  | animate transitions options =>
      {| topic := "animate-window";
         payload := with_identity
           {[ "transitions" := transitions; "options" := options ]} i |}
  | hide => {| topic := "hide-window"; payload := identity_object i |}
  | close force =>
      {| topic := "close-window";
         payload := with_identity
           {[ "force" := VBool (default false force) ]} i |}
  | getNativeId =>
      {| topic := "get-window-native-id"; payload := identity_object i |}
  | disableFrame =>
      {| topic := "disable-window-frame"; payload := identity_object i |}
  | disableUserMovement =>
      {| topic := "disable-window-frame"; payload := identity_object i |}
  | enableFrame =>
      {| topic := "enable-window-frame"; payload := identity_object i |}
  | enableUserMovement =>
      {| topic := "enable-window-frame"; payload := identity_object i |}
  | flash => {| topic := "flash-window"; payload := identity_object i |}
  | stopFlashing =>
      {| topic := "stop-flash-window"; payload := identity_object i |}
  | getGroup =>
      {| topic := "get-window-group";
         payload := with_identity {[ "crossApp" := VBool true ]} i |}
  | getInfo => {| topic := "get-window-info"; payload := identity_object i |}
  | getOptions =>
      {| topic := "get-window-options"; payload := identity_object i |}
  | getSnapshot area =>
      {| topic := "get-window-snapshot";
         payload := with_identity {[ "area" := area ]} i |}
  | getState => {| topic := "get-window-state"; payload := identity_object i |}
  | isShowing =>
      {| topic := "is-window-showing"; payload := identity_object i |}
  | joinGroup target =>
      {| topic := "join-window-group";
         payload := with_identity
           {[ "groupingUuid" := VString (uuid target);
              "groupingWindowName" := name_value (name target) ]} i |}
  | reload ignoreCache =>
      {| topic := "reload-window";
         payload := with_identity
           {[ "ignoreCache" := VBool (default false ignoreCache) ]} i |}
  | leaveGroup =>
      {| topic := "leave-window-group"; payload := identity_object i |}
  | maximize => {| topic := "maximize-window"; payload := identity_object i |}
  | mergeGroups target =>
      {| topic := "merge-window-groups";
         payload := with_identity
           {[ "groupingUuid" := VString (uuid target);
              "groupingWindowName" := name_value (name target) ]} i |}
  | minimize => {| topic := "minimize-window"; payload := identity_object i |}
  | moveBy deltaLeft deltaTop options =>
      {| topic := "move-window-by";
         payload := with_identity
           {[ "deltaLeft" := VNumber deltaLeft;
              "deltaTop" := VNumber deltaTop;
              "options" := options_value options ]} i |}
  | moveTo left_ top_ options =>
      {| topic := "move-window";
         payload := with_identity
           {[ "left" := VNumber left_;
              "top" := VNumber top_;
              "options" := options_value options ]} i |}
  | resizeBy deltaWidth deltaHeight anchor options =>
      {| topic := "resize-window-by";
         payload := with_identity
           {[ "deltaWidth" := VNumber (Math_floor deltaWidth);
              "deltaHeight" := VNumber (Math_floor deltaHeight);
              "anchor" := anchor;
              "options" := options_value options ]} i |}
  | resizeTo width height anchor options =>
      {| topic := "resize-window";
         payload := with_identity
           {[ "width" := VNumber (Math_floor width);
              "height" := VNumber (Math_floor height);
              "anchor" := anchor;
              "options" := options_value options ]} i |}
  | restore => {| topic := "restore-window"; payload := identity_object i |}
  | setAsForeground =>
      {| topic := "set-foreground-window"; payload := identity_object i |}
  | setBounds bounds options =>
      {| topic := "set-window-bounds";
         payload := with_identity
           (<[ "options" := options_value options ]> bounds) i |}
  | show force =>
      {| topic := "show-window";
         payload := with_identity
           {[ "force" := VBool (default false force) ]} i |}
  | showAt left_ top_ force options =>
      {| topic := "show-at-window";
         payload := with_identity
           {[ "force" := VBool (default false force);
              "left" := VNumber (Math_floor left_);
              "top" := VNumber (Math_floor top_);
              "options" := options_value options ]} i |}
  | showDeveloperTools =>
      {| topic := "show-developer-tools"; payload := identity_object i |}
  | updateOptions options =>
      {| topic := "update-window-options";
         payload := with_identity {[ "options" := options ]} i |}
  | authenticate userName password =>
      {| topic := "window-authenticate";
         payload := with_identity
           {[ "userName" := VString userName;
              "password" := VString password ]} i |}
  end.

(** What a method writes with [console.warn] before it sends its request:
    the two deprecated methods say so, the others write nothing. *)
Definition console_warn (c : Call) : option string :=
  match c with
  | disableFrame =>
      Some "Function is deprecated; use disableUserMovement instead."
  | enableFrame =>
      Some "Function is deprecated; use enableUserMovement instead."
  | _ => None
  end.

(** Property lookup [h.m] through the prototype link: the methods live on
    the prototype, a handle has none of its own. *)
Definition has_method (h : _Window) (m : string) : bool :=
  match prototype h with
  | Some methods => bool_decide (m ∈ methods)
  | None => false
  end.

(** What the caller of [h.m(args)] gets back synchronously: the promise the
    method returns, or an exception. *)
Inductive Outcome :=
  | Returned
  | Threw (e : exception).

(** The method call [h.m(args)] against a transport whose log of sent
    requests is [wire]: evaluating [h.m] to [undefined] raises a TypeError
    before anything runs; otherwise the body runs and sends its request. *)
Definition invoke (h : _Window) (c : Call) (wire : list Action)
  : Outcome * list Action :=
  if has_method h (method_name c)
  then (Returned, wire ++ [request (identity h) c])
  else (Threw (TypeError_not_a_function (method_name c)), wire).

(** The method call [h.m(args)] for any method [m] of the class: [body]
    is what the method does once it runs, to whatever it can reach ([W]: the
    transport, the environment, the heap, the listeners), and what it
    returns.  The lookup of [h.m] comes first: when it gives [undefined] the
    call throws and the body does not run.  [invoke] is this call for the
    methods that send one request. *)
Definition call_method {W R : Type} (h : _Window) (m : string)
    (body : W → R * W) (world : W) : (exception + R) * W :=
  if has_method h m
  then (inr (body world).1, (body world).2)
  else (inl (TypeError_not_a_function m), world).

(** The reply of the runtime to a request: the promise of [sendAction] is
    fulfilled or rejected. *)
Inductive Reply :=
  | Ack
  | Nack (reason : value).

(** The [then] callback of [close]: [Object.setPrototypeOf(this, null)]. *)
Definition close_then (h : _Window) : _Window :=
  {| identity := identity h; prototype := None |}.

(** The handle once the promise of [sendAction('close-window', ...)] has
    settled: the callback runs only on fulfilment. *)
Definition close_settled (h : _Window) (r : Reply) : _Window :=
  match r with
  | Ack => close_then h
  | Nack _ => h
  end.

(** *** The creation handshake: [createWindow] *)

Definition CONSTRUCTOR_CB_TOPIC : string := "fire-constructor-callback".

(** The payload of the constructor-callback notification,
    [{ success, data: { message, httpResponseCode, apiInjected,
    networkErrorCode, stack } }]; a field the runtime leaves out reads as
    [VUndefined]. *)
Record ResponseData := {
  message : value;
  httpResponseCode : value;
  apiInjected : value;
  networkErrorCode : value;
  stack : value
}.

Record Response := {
  success : bool;
  data : ResponseData
}.

(** [cbPayload]: one object literal on each branch of [if (success)]. *)
Inductive CbPayload :=
  | cb_success (httpResponseCode apiInjected : value)
  | cb_failure (message networkErrorCode stack : value).

(** The object [pageResponse] is resolved with,
    [{ message, cbPayload, success }]. *)
Record PageResolve := {
  pr_message : value;
  pr_cbPayload : CbPayload;
  pr_success : bool
}.

(** A rejection reason of the promises of the handshake: the value the
    runtime rejected the RPC with, or the [pageResolve] object. *)
Inductive Reason :=
  | reason_value (v : value)
  | reason_page (p : PageResolve).

(** [WindowOption] (declared in windowOption.ts, not part of window.ts): the
    fields window.ts reads or documents a default for, and the rest of the
    bag. *)
Record WindowOption := {
  opt_name : string;
  url : option string;
  waitForPageLoad : option bool;
  autoShow : option bool;
  opt_rest : gmap string value
}.

(** The listeners the model knows: the function [fireConstructor] of the
    creation attempt.  Listeners of the application are left out, what they
    do when called is not in window.ts: the states below are those of a
    handle on which nothing else is registered, as the handle that [create]
    makes. *)
Inductive Listener :=
  | fireConstructor.

#[global] Instance Listener_eq_dec : EqDecision Listener.
Proof. solve_decision. Defined.

(** What the handshake does, in the order it does it. *)
Inductive Effect :=
  | did_on (topic : string) (fn : Listener)
  | did_enter_fireConstructor (response : Response)
  | did_removeListener (topic : string) (fn : Listener)
  | did_resolve_pageResponse (p : PageResolve)
  | did_createChildWindow (options : nat) (seen : WindowOption)
  | did_resolve (this : _Window)
  | did_reject (r : Reason)
  | did_openerSuccessCBCalled.

(** The state of one creation attempt.  [heap] holds the option objects by
    reference, [child_reachable] says whether [getWebWindow()] and the
    child's [fin.__internal_] can be reached (they cannot across origins),
    [returned] is the promise [createWindow] returns. *)
Record State := {
  this : _Window;
  registry : list (string * Listener);
  heap : gmap nat WindowOption;
  child_reachable : bool;
  pageResponse : promise PageResolve Reason;
  windowCreation : promise unit Reason;
  joined : promise (PageResolve * unit) Reason;
  returned : promise _Window Reason;
  trace : list Effect
}.

Definition with_registry (reg : list (string * Listener)) (s : State) : State :=
  {| this := this s; registry := reg; heap := heap s;
     child_reachable := child_reachable s; pageResponse := pageResponse s;
     windowCreation := windowCreation s; joined := joined s;
     returned := returned s; trace := trace s |}.

Definition with_pageResponse (p : promise PageResolve Reason) (s : State)
  : State :=
  {| this := this s; registry := registry s; heap := heap s;
     child_reachable := child_reachable s; pageResponse := p;
     windowCreation := windowCreation s; joined := joined s;
     returned := returned s; trace := trace s |}.

Definition with_windowCreation (p : promise unit Reason) (s : State) : State :=
  {| this := this s; registry := registry s; heap := heap s;
     child_reachable := child_reachable s; pageResponse := pageResponse s;
     windowCreation := p; joined := joined s;
     returned := returned s; trace := trace s |}.

Definition with_joined (p : promise (PageResolve * unit) Reason) (s : State)
  : State :=
  {| this := this s; registry := registry s; heap := heap s;
     child_reachable := child_reachable s; pageResponse := pageResponse s;
     windowCreation := windowCreation s; joined := p;
     returned := returned s; trace := trace s |}.

Definition with_returned (p : promise _Window Reason) (s : State) : State :=
  {| this := this s; registry := registry s; heap := heap s;
     child_reachable := child_reachable s; pageResponse := pageResponse s;
     windowCreation := windowCreation s; joined := joined s;
     returned := p; trace := trace s |}.

Definition log (e : Effect) (s : State) : State :=
  {| this := this s; registry := registry s; heap := heap s;
     child_reachable := child_reachable s; pageResponse := pageResponse s;
     windowCreation := windowCreation s; joined := joined s;
     returned := returned s; trace := trace s ++ [e] |}.

(** The two assignments under the comment "set defaults". *)
Definition set_defaults (options : WindowOption) : WindowOption :=
  let options :=
    match waitForPageLoad options with
    | None =>
        {| opt_name := opt_name options; url := url options;
           waitForPageLoad := Some false; autoShow := autoShow options;
           opt_rest := opt_rest options |}
    | Some _ => options
    end in
  match autoShow options with
  | None =>
      {| opt_name := opt_name options; url := url options;
         waitForPageLoad := waitForPageLoad options; autoShow := Some true;
         opt_rest := opt_rest options |}
  | Some _ => options
  end.

(** [createWindow(options)] up to its [return]: both promise executors run
    synchronously, so the listener is registered, the defaults are written
    into the object [options] refers to, and the creation RPC is issued with
    that same reference.  This is the body of the method, run once the
    call [h.createWindow] has found it (see [call_createWindow]), on a
    handle with no listeners yet.  The result is [None] when [options] is
    not a reference to an object, which the parameter type [WindowOption]
    excludes. *)
Definition createWindow (h : _Window)
    (hp : gmap nat WindowOption) (reachable : bool) (options : nat)
  : option State :=
  match hp !! options with
  | None => None
  | Some o =>
      let o' := set_defaults o in
      Some {| this := h;
              registry := Emitter.on CONSTRUCTOR_CB_TOPIC fireConstructor [];
              heap := <[ options := o' ]> hp;
              child_reachable := reachable;
              pageResponse := Pending;
              windowCreation := Pending;
              joined := Pending;
              returned := Pending;
              trace := [ did_on CONSTRUCTOR_CB_TOPIC fireConstructor;
                         did_createChildWindow options o' ] |}
  end.

(** The method call [h.createWindow(options)]: the lookup of the method,
    then its body. *)
Definition call_createWindow (h : _Window) (hp : gmap nat WindowOption)
    (reachable : bool) (options : nat) : exception + option State :=
  if has_method h "createWindow"
  then inr (createWindow h hp reachable options)
  else inl (TypeError_not_a_function "createWindow").

(** The listener [fireConstructor(response)]. *)
Definition run_fireConstructor (response : Response) (s : State) : State :=
  let s := log (did_enter_fireConstructor response) s in
  let responseData := data response in
  let cbPayload :=
    if success response
    then cb_success (httpResponseCode responseData) (apiInjected responseData)
    else cb_failure (message responseData) (networkErrorCode responseData)
           (stack responseData) in
  let s := log (did_removeListener CONSTRUCTOR_CB_TOPIC fireConstructor)
             (with_registry
                (Emitter.removeListener CONSTRUCTOR_CB_TOPIC fireConstructor
                   (registry s)) s) in
  let p := {| pr_message := message responseData;
              pr_cbPayload := cbPayload;
              pr_success := success response |} in
  log (did_resolve_pageResponse p)
    (with_pageResponse (resolve p (pageResponse s)) s).

Definition call_listener (response : Response) (s : State) (fn : Listener)
  : State :=
  match fn with
  | fireConstructor => run_fireConstructor response s
  end.

(** The runtime delivers a notification on [topic] to the handle: every
    listener registered under the topic when delivery starts is called. *)
Definition deliver (topic : string) (response : Response) (s : State)
  : State :=
  foldl (call_listener response) s (Emitter.listeners topic (registry s)).

(** The [then] callback on [Promise.all([pageResponse, windowCreation])]. *)
Definition all_then (pageResolve : PageResolve) (s : State) : State :=
  let s :=
    if pr_success pageResolve
    then log (did_resolve (this s))
           (with_returned (resolve (this s) (returned s)) s)
    else log (did_reject (reason_page pageResolve))
           (with_returned (reject (reason_page pageResolve) (returned s)) s) in
  if child_reachable s then log did_openerSuccessCBCalled s else s.

(** The promise reactions that run once the current task is over: the
    state of [Promise.all] follows its two inputs, its [then] callback runs
    on fulfilment and [catch(reject)] on rejection. *)
Definition reactions (s : State) : State :=
  match joined s with
  | Pending =>
      match Promise_all (pageResponse s) (windowCreation s) with
      | Pending => s
      | Fulfilled (pageResolve, u) =>
          all_then pageResolve (with_joined (Fulfilled (pageResolve, u)) s)
      | Rejected r =>
          log (did_reject r)
            (with_returned (reject r (returned s))
               (with_joined (Rejected r) s))
      end
  | _ => s
  end.

(** What the runtime can do to a creation attempt in flight. *)
Inductive Event :=
  | Notify (topic : string) (response : Response)
  | RpcResolved
  | RpcRejected (e : value).

(** The task the event loop runs for an event: delivery to the listeners,
    or the settlement of the promise [createChildWindow] returned. *)
Definition task (s : State) (ev : Event) : State :=
  match ev with
  | Notify topic response => deliver topic response s
  | RpcResolved => with_windowCreation (resolve tt (windowCreation s)) s
  | RpcRejected e =>
      with_windowCreation (reject (reason_value e) (windowCreation s)) s
  end.

(** One turn of the event loop: the task, then the promise reactions. *)
Definition step (s : State) (ev : Event) : State := reactions (task s ev).

Definition run (s : State) (evs : list Event) : State := foldl step s evs.

Definition is_fire (e : Effect) : bool :=
  match e with
  | did_enter_fireConstructor _ => true
  | _ => false
  end.

Definition is_resolve_pageResponse (e : Effect) : bool :=
  match e with
  | did_resolve_pageResponse _ => true
  | _ => false
  end.

(** How often the body of [fireConstructor] was entered, and how often it
    called the [resolve] of [pageResponse]. *)
Definition fire_count (t : list Effect) : nat :=
  length (List.filter is_fire t).

Definition resolve_count (t : list Effect) : nat :=
  length (List.filter is_resolve_pageResponse t).

End Window.

(** ** The [_WindowModule] factory *)

Module WindowModule.

Import Js Window.

(** [create(options)]: a fresh handle named after [options.name] in the
    application of [me], then [win.createWindow(options)]; the fresh handle
    has the method, so the call is the body of [createWindow]. *)
Definition create (me : Identity) (hp : gmap nat WindowOption)
    (reachable : bool) (options : nat) : option State :=
  match hp !! options with
  | None => None
  | Some o =>
      let win := new_Window {| uuid := uuid me; name := named (opt_name o) |} in
      createWindow win hp reachable options
  end.

End WindowModule.

(** ** Vocabulary of the properties *)

Module Protocol.

Import Js Window WindowModule.

(** What the resolver guarantees about the handle made from one entry: the
    handle is foreign exactly when the flag is set, it has the uuid of the
    entry, and its [name] key holds the name of the entry for a local handle
    ([undefined] when the entry has none) and is missing for a foreign
    one. *)
Definition resolves (e : GroupWindowIdentity) (m : GroupMember) : Prop :=
  is_foreign m = truthy (isExternalWindow e)
  ∧ uuid (member_identity m) = g_uuid e
  ∧ name (member_identity m)
    = (if truthy (isExternalWindow e) then name_absent
       else entry_name (g_name e)).

(** The calls of [environment.createChildWindow] in a trace: the reference
    passed and the object it referred to at the call. *)
Definition createChildWindow_calls (t : list Effect)
  : list (nat * WindowOption) :=
  omap (λ e, match e with
             | did_createChildWindow l o => Some (l, o)
             | _ => None
             end) t.

Definition append_trace (t : list Effect) (s : State) : State :=
  {| this := this s; registry := registry s; heap := heap s;
     child_reachable := child_reachable s; pageResponse := pageResponse s;
     windowCreation := windowCreation s; joined := joined s;
     returned := returned s; trace := trace s ++ t |}.

(** The effects of the listener [fireConstructor]. *)
Definition is_listener_effect (e : Effect) : bool :=
  match e with
  | did_enter_fireConstructor _ => true
  | did_removeListener _ _ => true
  | did_resolve_pageResponse _ => true
  | _ => false
  end.

(** A stretch of trace in which [fireConstructor] does not run. *)
Definition quiet (t : list Effect) : Prop :=
  Forall (λ e, is_listener_effect e = false) t.

(** The object [fireConstructor] resolves [pageResponse] with. *)
Definition page_of (response : Response) : PageResolve :=
  {| pr_message := message (data response);
     pr_cbPayload :=
       if success response
       then cb_success (httpResponseCode (data response))
              (apiInjected (data response))
       else cb_failure (message (data response))
              (networkErrorCode (data response)) (stack (data response));
     pr_success := success response |}.

(** One run of [fireConstructor] in a trace: entered once, and there the
    registration is removed before [pageResponse] is resolved. *)
Definition fired_once (t : list Effect) (p : PageResolve) : Prop :=
  ∃ t1 t2 response,
    t = t1 ++ [ did_enter_fireConstructor response;
                did_removeListener CONSTRUCTOR_CB_TOPIC fireConstructor;
                did_resolve_pageResponse p ] ++ t2
    ∧ quiet t1 ∧ quiet t2 ∧ p = page_of response.

Definition trace_ok (p : promise PageResolve Reason) (t : list Effect)
  : Prop :=
  match p with
  | Pending => quiet t
  | Fulfilled a => fired_once t a
  | Rejected _ => False
  end.

(** The two completion sources as functions of the events so far. *)
Definition page_step (p : promise PageResolve Reason) (ev : Event)
  : promise PageResolve Reason :=
  match ev with
  | Notify topic response =>
      if decide (topic = CONSTRUCTOR_CB_TOPIC)
      then resolve (page_of response) p
      else p
  | _ => p
  end.

Definition rpc_step (p : promise unit Reason) (ev : Event)
  : promise unit Reason :=
  match ev with
  | RpcResolved => resolve tt p
  | RpcRejected e => reject (reason_value e) p
  | Notify _ _ => p
  end.

(** The promise [createWindow] returns as a function of the two
    completion sources. *)
Definition outcome (h : _Window) (page : promise PageResolve Reason)
    (rpc : promise unit Reason) : promise _Window Reason :=
  match Promise_all page rpc with
  | Pending => Pending
  | Fulfilled (p, _) =>
      if pr_success p then Fulfilled h else Rejected (reason_page p)
  | Rejected r => Rejected r
  end.

Definition is_notification (ev : Event) : bool :=
  match ev with
  | Notify _ _ => true
  | _ => false
  end.

(** The invariant of a creation attempt. *)
Record Inv (s : State) : Prop := {
  inv_registry :
    registry s
    = (if settled (pageResponse s) then []
       else [(CONSTRUCTOR_CB_TOPIC, fireConstructor)]);
  inv_joined : joined s = Promise_all (pageResponse s) (windowCreation s);
  inv_returned :
    returned s = outcome (this s) (pageResponse s) (windowCreation s);
  inv_trace : trace_ok (pageResponse s) (trace s)
}.

(** A caller, an option object with nothing but a name, and two
    constructor notifications, for the examples. *)
Definition example_me : Identity := {| uuid := "app"; name := named "app" |}.

Definition example_options : WindowOption :=
  {| opt_name := "w1"; url := None; waitForPageLoad := None;
     autoShow := None; opt_rest := ∅ |}.

Definition example_success : Response :=
  {| success := true;
     data := {| message := VString ""; httpResponseCode := VNumber (Finite 200);
                apiInjected := VBool true; networkErrorCode := VUndefined;
                stack := VUndefined |} |}.

Definition example_failure : Response :=
  {| success := false;
     data := {| message := VString "net::ERR_FAILED";
                httpResponseCode := VUndefined; apiInjected := VUndefined;
                networkErrorCode := VNumber (Finite (-2));
                stack := VString "at load" |} |}.

End Protocol.

(** ** The other factories of [_WindowModule], and more vocabulary *)

Module Coverage.

Import Js Window WindowModule Protocol.

(** What [wrapSync] gives its caller: a handle, or the [Error] it throws. *)
Inductive Wrapped :=
  | threw_Error (message : string)
  | wrapped (w : _Window).

Section Wrap.

(** [validateIdentity] of util/validate (imported by window.ts, not part
    of it): the error message for a malformed identity, or [undefined]. *)
Variable validateIdentity : Identity → option string.

(** [wrapSync(identity)]: [if (errorMsg)] is taken for a non-empty
    string only. *)
Definition wrapSync (identity : Identity) : Wrapped :=
  match validateIdentity identity with
  | Some errorMsg =>
      if bool_decide (errorMsg ≠ "")
      then threw_Error errorMsg
      else wrapped (new_Window identity)
  | None => wrapped (new_Window identity)
  end.

(** [wrap(identity)], the [async] twin: the promise it returns is settled
    when it returns, rejected with the [Error] where [wrapSync] throws. *)
Definition wrap (identity : Identity) : promise _Window string :=
  match validateIdentity identity with
  | Some errorMsg =>
      if bool_decide (errorMsg ≠ "")
      then Rejected errorMsg
      else Fulfilled (new_Window identity)
  | None => Fulfilled (new_Window identity)
  end.

(** [getCurrent()] and [getCurrentSync()], for a transport whose [me] is
    [me]. *)
Definition getCurrent (me : Identity) : promise _Window string := wrap me.

Definition getCurrentSync (me : Identity) : Wrapped := wrapSync me.

End Wrap.

(** The effects of the two executors of [createWindow]: registering the
    listener and issuing the creation RPC. *)
Definition is_setup (e : Effect) : bool :=
  match e with
  | did_on _ _ => true
  | did_createChildWindow _ _ => true
  | _ => false
  end.

Definition is_opener (e : Effect) : bool :=
  match e with
  | did_openerSuccessCBCalled => true
  | _ => false
  end.

(** How often the child's [openerSuccessCBCalled] hook was invoked. *)
Definition opener_count (t : list Effect) : nat :=
  length (List.filter is_opener t).

(** The calls of the [resolve] and [reject] of the promise [createWindow]
    returns. *)
Definition is_settle (e : Effect) : bool :=
  match e with
  | did_resolve _ => true
  | did_reject _ => true
  | _ => false
  end.

Definition settle_count (t : list Effect) : nat :=
  length (List.filter is_settle t).

(** Events the handshake listens to: settlements of the RPC and
    notifications on the constructor-callback topic. *)
Definition relevant (ev : Event) : bool :=
  match ev with
  | Notify topic _ => bool_decide (topic = CONSTRUCTOR_CB_TOPIC)
  | _ => true
  end.

Definition is_rpc_event (ev : Event) : bool := negb (is_notification ev).

Definition is_fulfilled {A R} (p : promise A R) : bool :=
  match p with
  | Fulfilled _ => true
  | _ => false
  end.

(** A stretch of trace made by listeners only: nothing of the setup of
    [createWindow] and nothing of its join. *)
Definition listener_only (t : list Effect) : Prop :=
  Forall (λ e, is_setup e = false ∧ is_opener e = false
               ∧ is_settle e = false) t.

(** The bookkeeping of the join: the hook of the child has been invoked
    once if the join is fulfilled and the child can be reached, and not
    otherwise; [resolve] or [reject] of the returned promise has been called
    once if the join is settled, and not otherwise. *)
Definition join_accounted (s : State) : Prop :=
  opener_count (trace s)
  = (if child_reachable s && is_fulfilled (joined s) then 1 else 0)
  ∧ settle_count (trace s) = (if settled (joined s) then 1 else 0).

(** The topics of window.ts and the methods that send on each. *)
Definition topic_table : gmap string (list string) :=
  list_to_map
  [ ("get-all-frames", ["getAllFrames"]);
    ("get-window-bounds", ["getBounds"]);
    ("focus-window", ["focus"]); ("center-window", ["center"]);
    ("blur-window", ["blur"]); ("bring-window-to-front", ["bringToFront"]);
    ("animate-window", ["animate"]); ("hide-window", ["hide"]);
    ("close-window", ["close"]); ("get-window-native-id", ["getNativeId"]);
    ("disable-window-frame", ["disableFrame"; "disableUserMovement"]);
    ("enable-window-frame", ["enableFrame"; "enableUserMovement"]);
    ("flash-window", ["flash"]); ("stop-flash-window", ["stopFlashing"]);
    ("get-window-group", ["getGroup"]); ("get-window-info", ["getInfo"]);
    ("get-window-options", ["getOptions"]);
    ("get-window-snapshot", ["getSnapshot"]);
    ("get-window-state", ["getState"]);
    ("is-window-showing", ["isShowing"]);
    ("join-window-group", ["joinGroup"]); ("reload-window", ["reload"]);
    ("leave-window-group", ["leaveGroup"]);
    ("maximize-window", ["maximize"]);
    ("merge-window-groups", ["mergeGroups"]);
    ("minimize-window", ["minimize"]);
    ("move-window-by", ["moveBy"]); ("move-window", ["moveTo"]);
    ("resize-window-by", ["resizeBy"]); ("resize-window", ["resizeTo"]);
    ("restore-window", ["restore"]);
    ("set-foreground-window", ["setAsForeground"]);
    ("set-window-bounds", ["setBounds"]); ("show-window", ["show"]);
    ("show-at-window", ["showAt"]);
    ("show-developer-tools", ["showDeveloperTools"]);
    ("update-window-options", ["updateOptions"]);
    ("window-authenticate", ["authenticate"]) ].

(** The method a deprecated name stands for. *)
Definition current_name (m : string) : string :=
  if String.eqb m "disableFrame" then "disableUserMovement"
  else if String.eqb m "enableFrame" then "enableUserMovement"
  else m.

End Coverage.

(** * Properties *)

Import Js Window WindowModule Protocol.

(** ** One-call-one-RPC methods: flooring *)

Lemma Math_floor_is_integer (q : Q) : is_integer (Math_floor (Finite q)) = true.
Proof.
  unfold Math_floor, is_integer. rewrite Qfloor_Z.
  apply Qeq_bool_iff. reflexivity.
Qed.

(** The extra keys of a payload are not shadowed by the identity unless they
    are called [uuid] or [name]. *)
Lemma with_identity_lookup (extra : gmap string value) (i : Identity)
    (k : string) :
  k ≠ "uuid" → k ≠ "name" →
  with_identity extra i !! k = extra !! k.
Proof.
  intros Hu Hn. unfold with_identity, Object_assign, identity_object.
  rewrite (right_id_L ∅ (∪)).
  apply lookup_union_r.
  destruct (name i); simplify_map_eq; reflexivity.
Qed.

(** C7 (as amended): [resizeTo], [resizeBy] and [showAt] put
    [Math.floor] of their numeric arguments in the payload they send, for
    every identity and every other argument; what they put there for a
    finite argument has no fractional part. *)
Theorem floored_geometry_on_the_wire (i : Identity) (a b : number)
    (anchor : value) (force : option bool)
    (options : option WindowMovementOptions) :
  (payload (request i (resizeTo a b anchor options)) !! "width"
     = Some (VNumber (Math_floor a))
   ∧ payload (request i (resizeTo a b anchor options)) !! "height"
     = Some (VNumber (Math_floor b)))
  ∧ (payload (request i (resizeBy a b anchor options)) !! "deltaWidth"
     = Some (VNumber (Math_floor a))
   ∧ payload (request i (resizeBy a b anchor options)) !! "deltaHeight"
     = Some (VNumber (Math_floor b)))
  ∧ (payload (request i (showAt a b force options)) !! "left"
     = Some (VNumber (Math_floor a))
   ∧ payload (request i (showAt a b force options)) !! "top"
     = Some (VNumber (Math_floor b)))
  ∧ (∀ q : Q, is_integer (Math_floor (Finite q)) = true).
Proof.
  repeat split; try apply Math_floor_is_integer;
    cbn [request payload]; rewrite with_identity_lookup by discriminate;
    simplify_map_eq; reflexivity.
Qed.

(** C7 (as stated) fails: [moveTo], [moveBy] and [setBounds] send the
    numbers as the caller gave them, so 1.5 reaches the wire although its
    floor is 1. *)
Lemma moveTo_sends_fraction :
  payload (request {| uuid := "app"; name := named "w1" |}
             (moveTo (Finite (3 # 2)) (Finite 0) None)) !! "left"
    = Some (VNumber (Finite (3 # 2)))
  ∧ payload (request {| uuid := "app"; name := named "w1" |}
               (moveBy (Finite (3 # 2)) (Finite 0) None)) !! "deltaLeft"
    = Some (VNumber (Finite (3 # 2)))
  ∧ payload (request {| uuid := "app"; name := named "w1" |}
               (setBounds {[ "width" := VNumber (Finite (3 # 2)) ]} None))
      !! "width"
    = Some (VNumber (Finite (3 # 2)))
  ∧ Math_floor (Finite (3 # 2)) = Finite 1
  ∧ Finite (3 # 2) ≠ Math_floor (Finite (3 # 2))
  ∧ is_integer (Finite (3 # 2)) = false.
Proof.
  split; [reflexivity|].
  split; [reflexivity|].
  split; [reflexivity|].
  split; [reflexivity|].
  split; [|reflexivity].
  intros H. vm_compute in H. discriminate H.
Qed.

(** ** Poisoning a handle with [close] *)

(** Every modelled call names a method of the prototype, so a handle that
    still has its prototype runs the method body. *)
Lemma method_on_prototype (c : Call) :
  has_method (new_Window {| uuid := ""; name := name_absent |}) (method_name c) = true.
Proof. destruct c; vm_compute; reflexivity. Qed.

Lemma invoke_new_Window (i : Identity) (c : Call) (wire : list Action) :
  invoke (new_Window i) c wire = (Returned, wire ++ [request i c]).
Proof.
  unfold invoke.
  replace (has_method (new_Window i) (method_name c)) with true;
    [reflexivity|].
  symmetry. exact (method_on_prototype c).
Qed.

Lemma invoke_call_method (h : _Window) (c : Call) (wire : list Action) :
  call_method h (method_name c)
    (λ w, (tt, w ++ [request (identity h) c])) wire
  = match invoke h c wire with
    | (Returned, w) => (inr tt, w)
    | (Threw e, w) => (inl e, w)
    end.
Proof. unfold call_method, invoke. destruct (has_method _ _); reflexivity. Qed.

Lemma call_createWindow_new_Window (i : Identity)
    (hp : gmap nat WindowOption) (reachable : bool) (options : nat) :
  call_createWindow (new_Window i) hp reachable options
  = inr (createWindow (new_Window i) hp reachable options).
Proof. reflexivity. Qed.

(** C6 (as amended): once the promise of [close] is fulfilled, every call
    of a method of the class on that handle throws the TypeError of a call
    through a missing property, and nothing the method could reach is
    touched.  This holds of the methods that send one request, whose log of
    requests on the transport is unchanged; of [createWindow], which
    registers no listener and issues no creation RPC; and of every method
    name and every method body, so of all 46 methods of the class body,
    none of which the closed handle still has. *)
Theorem closed_handle_throws_without_rpc (h : _Window) (c : Call)
    (wire : list Action) :
  invoke (close_settled h Ack) c wire
  = (Threw (TypeError_not_a_function (method_name c)), wire)
  ∧ (∀ (W R : Type) (m : string) (body : W → R * W) (world : W),
       call_method (close_settled h Ack) m body world
       = (inl (TypeError_not_a_function m), world))
  ∧ (∀ hp reachable options,
       call_createWindow (close_settled h Ack) hp reachable options
       = inl (TypeError_not_a_function "createWindow"))
  ∧ Forall (λ m, has_method (close_settled h Ack) m = false) Window_prototype
  ∧ length Window_prototype = 46.
Proof.
  split_and!; try reflexivity.
  apply Forall_forall. reflexivity.
Qed.

(** C6 (as stated) fails: the exception after [close] is a TypeError, not
    an error of kind [Closed]. *)
Lemma closed_handle_error_is_not_Closed :
  invoke (close_settled (new_Window {| uuid := "app"; name := named "w1" |}) Ack)
    focus []
  = (Threw (TypeError_not_a_function "focus"), [])
  ∧ (invoke (close_settled (new_Window {| uuid := "app"; name := named "w1" |}) Ack)
       focus []).1
    ≠ Threw ClosedError.
Proof. split; [reflexivity | discriminate]. Qed.

(** A [close] the runtime rejects leaves the handle usable. *)
Lemma rejected_close_keeps_handle (i : Identity) (reason : value) (c : Call)
    (wire : list Action) :
  invoke (close_settled (new_Window i) (Nack reason)) c wire
  = (Returned, wire ++ [request i c]).
Proof. apply invoke_new_Window. Qed.

(** ** The group resolver *)

Lemma window_from_name_resolves (e : GroupWindowIdentity) :
  resolves e (window_from_name e).
Proof.
  unfold resolves, window_from_name.
  destruct (truthy (isExternalWindow e)); repeat split.
Qed.

(** C9 (as amended): the resolver returns a sequence of the same length
    and order as the list of the runtime; the i-th handle is foreign exactly
    when the flag of the i-th entry is set; every handle carries the uuid of
    its entry, a local handle also its name, a foreign handle no name. *)
Theorem windowListFromNameList_pointwise (l : list GroupWindowIdentity) :
  length (windowListFromNameList l) = length l
  ∧ Forall2 resolves l (windowListFromNameList l).
Proof.
  unfold windowListFromNameList. split.
  - apply length_fmap.
  - induction l as [|e l IH]; constructor.
    + apply window_from_name_resolves.
    + exact IH.
Qed.

(** C9 (as stated) fails: the handle of an external entry does not carry
    the name of the entry. *)
Lemma foreign_handle_drops_name :
  windowListFromNameList
    [ {| g_uuid := "ext"; g_name := Some "notepad";
         isExternalWindow := Some true |} ]
  = [ Foreign {| ext_identity := {| uuid := "ext"; name := name_absent |} |} ]
  ∧ member_identity
      (Foreign {| ext_identity := {| uuid := "ext"; name := name_absent |} |})
    ≠ {| uuid := "ext"; name := named "notepad" |}.
Proof. split; [reflexivity | discriminate]. Qed.

Lemma getGroup_then_resolver (data : list GroupWindowIdentity) :
  getGroup_then data = windowListFromNameList data.
Proof.
  unfold getGroup_then. destruct data; reflexivity.
Qed.

(** C8 (as amended): for an ungrouped window, for which the runtime
    replies with the empty list, [getGroup] yields the empty sequence; and
    whenever the reply of the runtime has an entry with the calling handle's
    uuid and name and no external flag, a local handle with the calling
    handle's uuid and name is in the result: a handle with the caller's
    very identity, unless that identity is an object without the [name]
    key, for which the handle in the result has the key with
    [undefined]. *)
Theorem getGroup_follows_runtime_reply (h : _Window)
    (data : list GroupWindowIdentity) (e : GroupWindowIdentity) :
  e ∈ data →
  g_uuid e = uuid (identity h) →
  name_value (entry_name (g_name e)) = name_value (name (identity h)) →
  truthy (isExternalWindow e) = false →
  getGroup_then ungrouped_reply = []
  ∧ (∃ w, Local w ∈ getGroup_then data
          ∧ uuid (identity w) = uuid (identity h)
          ∧ name_value (name (identity w)) = name_value (name (identity h)))
  ∧ (name (identity h) ≠ name_absent →
     Local (new_Window (identity h)) ∈ getGroup_then data).
Proof.
  intros Hin Hu Hn Hx. split; [reflexivity|].
  assert (Hw : Local (new_Window {| uuid := g_uuid e;
                                    name := entry_name (g_name e) |})
               ∈ getGroup_then data).
  { rewrite getGroup_then_resolver. unfold windowListFromNameList.
    apply list_elem_of_fmap. exists e. split; [|exact Hin].
    unfold window_from_name. rewrite Hx. reflexivity. }
  split.
  - eexists. split; [exact Hw|]. split; [exact Hu | exact Hn].
  - intros Hk.
    replace (identity h)
      with {| uuid := g_uuid e; name := entry_name (g_name e) |};
      [exact Hw|].
    destruct (identity h) as [u n]. simpl in *. subst u. f_equal.
    destruct (g_name e), n; simpl in *; congruence.
Qed.

Lemma getGroup_follows_runtime_reply_witness :
  getGroup_then ungrouped_reply = []
  ∧ Local (new_Window {| uuid := "app"; name := named "w1" |})
    ∈ getGroup_then
        [ {| g_uuid := "app"; g_name := Some "w2"; isExternalWindow := None |};
          self_entry {| uuid := "app"; name := named "w1" |} ].
Proof.
  destruct (getGroup_follows_runtime_reply
              (new_Window {| uuid := "app"; name := named "w1" |})
              [ {| g_uuid := "app"; g_name := Some "w2";
                   isExternalWindow := None |};
                self_entry {| uuid := "app"; name := named "w1" |} ]
              (self_entry {| uuid := "app"; name := named "w1" |}))
    as (H0 & _ & H); [repeat constructor | reflexivity | reflexivity
                     | reflexivity |].
  split; [exact H0|]. apply H. discriminate.
Defined.

(** C8 (as stated) fails: for an ungrouped window the result is empty, not
    a one-element sequence holding the caller. *)
Lemma getGroup_ungrouped_is_empty :
  getGroup_then ungrouped_reply = []
  ∧ length (getGroup_then ungrouped_reply) ≠ 1
  ∧ Local (new_Window {| uuid := "app"; name := named "w1" |})
    ∉ getGroup_then ungrouped_reply.
Proof.
  split; [reflexivity|]. split; [discriminate|].
  apply not_elem_of_nil.
Qed.

(** ** The creation handshake *)

Section Handshake.

Implicit Types (s : State) (ev : Event).

Lemma removeListener_last (topic : string) (fn : Listener)
    (r : list (string * Listener)) :
  Emitter.removeListener topic fn (r ++ [(topic, fn)]) = r.
Proof.
  unfold Emitter.removeListener. rewrite reverse_snoc. simpl.
  rewrite decide_True by reflexivity. apply reverse_involutive.
Qed.

(** [fireConstructor] when its registration is the most recent one. *)
Lemma run_fireConstructor_registered (response : Response)
    (r : list (string * Listener)) s :
  registry s = r ++ [(CONSTRUCTOR_CB_TOPIC, fireConstructor)] →
  run_fireConstructor response s
  = append_trace
      [ did_enter_fireConstructor response;
        did_removeListener CONSTRUCTOR_CB_TOPIC fireConstructor;
        did_resolve_pageResponse (page_of response) ]
      (with_pageResponse (resolve (page_of response) (pageResponse s))
         (with_registry r s)).
Proof.
  intros Hreg.
  unfold run_fireConstructor, log, with_pageResponse, with_registry,
    append_trace, page_of.
  simpl. rewrite Hreg, removeListener_last, <- !app_assoc. reflexivity.
Qed.

(** Delivery while the listener is registered: [fireConstructor] removes
    itself and resolves [pageResponse]. *)
Lemma deliver_registered (response : Response) s :
  registry s = [(CONSTRUCTOR_CB_TOPIC, fireConstructor)] →
  deliver CONSTRUCTOR_CB_TOPIC response s
  = append_trace
      [ did_enter_fireConstructor response;
        did_removeListener CONSTRUCTOR_CB_TOPIC fireConstructor;
        did_resolve_pageResponse (page_of response) ]
      (with_pageResponse (resolve (page_of response) (pageResponse s))
         (with_registry [] s)).
Proof.
  intros Hreg. unfold deliver. rewrite Hreg.
  change (Emitter.listeners CONSTRUCTOR_CB_TOPIC
            [(CONSTRUCTOR_CB_TOPIC, fireConstructor)])
    with [fireConstructor].
  cbn [foldl call_listener].
  apply (run_fireConstructor_registered response []). exact Hreg.
Qed.

(** Any other delivery reaches no listener. *)
Lemma deliver_unregistered (topic : string) (response : Response) s :
  registry s = []
  ∨ (registry s = [(CONSTRUCTOR_CB_TOPIC, fireConstructor)]
     ∧ topic ≠ CONSTRUCTOR_CB_TOPIC) →
  deliver topic response s = s.
Proof.
  intros H. unfold deliver. destruct H as [Hreg|[Hreg Hne]]; rewrite Hreg.
  - reflexivity.
  - replace (Emitter.listeners topic
               [(CONSTRUCTOR_CB_TOPIC, fireConstructor)])
      with (@nil Listener); [reflexivity|].
    unfold Emitter.listeners. rewrite filter_cons. simpl.
    rewrite decide_False by congruence. reflexivity.
Qed.

Lemma quiet_app (a b : list Effect) : quiet a → quiet b → quiet (a ++ b).
Proof. unfold quiet. intros Ha Hb. apply Forall_app. split; assumption. Qed.

Lemma trace_ok_append (p : promise PageResolve Reason) (t t' : list Effect) :
  trace_ok p t → quiet t' → trace_ok p (t ++ t').
Proof.
  destruct p as [|a|r]; simpl; [apply quiet_app| |tauto].
  intros (t1 & t2 & response & -> & H1 & H2 & Hp) Hq.
  exists t1, (t2 ++ t'), response.
  split; [|split; [exact H1|split; [apply quiet_app; assumption|exact Hp]]].
  rewrite <- !app_assoc. reflexivity.
Qed.

(** The first run of [fireConstructor] gives the trace its one block. *)
Lemma trace_ok_fire (response : Response) (t : list Effect) :
  quiet t →
  fired_once
    (t ++
     [ did_enter_fireConstructor response;
       did_removeListener CONSTRUCTOR_CB_TOPIC fireConstructor;
       did_resolve_pageResponse (page_of response) ])
    (page_of response).
Proof.
  intros Ht. exists t, [], response.
  split; [now rewrite app_nil_r|].
  split; [exact Ht|].
  split; [constructor|reflexivity].
Qed.

(** What the task of an event does to a state that satisfies the
    invariant. *)
Lemma task_spec s ev :
  Inv s →
  pageResponse (task s ev) = page_step (pageResponse s) ev
  ∧ windowCreation (task s ev) = rpc_step (windowCreation s) ev
  ∧ joined (task s ev) = joined s
  ∧ returned (task s ev) = returned s
  ∧ this (task s ev) = this s
  ∧ heap (task s ev) = heap s
  ∧ child_reachable (task s ev) = child_reachable s
  ∧ registry (task s ev)
    = (if settled (pageResponse (task s ev)) then []
       else [(CONSTRUCTOR_CB_TOPIC, fireConstructor)])
  ∧ trace_ok (pageResponse (task s ev)) (trace (task s ev))
  ∧ ∃ t, trace (task s ev) = trace s ++ t.
Proof.
  intros [Hreg _ _ Ht].
  destruct ev as [topic response| |e].
  - unfold task, page_step, rpc_step.
    destruct (decide (topic = CONSTRUCTOR_CB_TOPIC)) as [->|Hne];
      [destruct (pageResponse s) as [|p|r] eqn:Hp|].
    + rewrite (deliver_registered response s Hreg).
      simpl. rewrite Hp. simpl. split_and!; try reflexivity.
      * apply trace_ok_fire; assumption.
      * eexists. reflexivity.
    + rewrite (deliver_unregistered CONSTRUCTOR_CB_TOPIC response s)
        by (left; exact Hreg).
      rewrite Hp. simpl. split_and!; try reflexivity.
      * exact Hreg.
      * exact Ht.
      * exists []. now rewrite app_nil_r.
    + destruct Ht.
    + rewrite (deliver_unregistered topic response s).
      2:{ destruct (pageResponse s); simpl in Hreg;
            [right; split; [exact Hreg|exact Hne] | left | left];
            exact Hreg. }
      split_and!; try reflexivity.
      * exact Hreg.
      * exact Ht.
      * exists []. now rewrite app_nil_r.
  - simpl. split_and!; try reflexivity; try assumption.
    exists []. now rewrite app_nil_r.
  - simpl. split_and!; try reflexivity; try assumption.
    exists []. now rewrite app_nil_r.
Qed.

(** The reactions touch only [joined], [returned] and the trace. *)
Lemma reactions_frame s :
  pageResponse (reactions s) = pageResponse s
  ∧ windowCreation (reactions s) = windowCreation s
  ∧ registry (reactions s) = registry s
  ∧ this (reactions s) = this s
  ∧ heap (reactions s) = heap s
  ∧ child_reachable (reactions s) = child_reachable s
  ∧ ∃ t, quiet t ∧ trace (reactions s) = trace s ++ t.
Proof.
  unfold reactions, all_then.
  destruct (joined s);
    [destruct (Promise_all (pageResponse s) (windowCreation s))
       as [|[p u]|r] | |]; simpl;
    try destruct (pr_success p); simpl;
    try destruct (child_reachable s) eqn:Hc; simpl;
    split_and!; try reflexivity; try exact Hc;
    (eexists; split;
     [|first [symmetry; apply app_nil_r
             |rewrite <- ?app_assoc; reflexivity]]);
    repeat constructor.
Qed.

(** After the reactions the join and the returned promise agree with the
    two completion sources, provided they did before the task or had not
    been settled. *)
Lemma reactions_join s :
  (joined s = Pending ∧ returned s = Pending)
  ∨ (joined s ≠ Pending
     ∧ joined s = Promise_all (pageResponse s) (windowCreation s)
     ∧ returned s = outcome (this s) (pageResponse s) (windowCreation s)) →
  joined (reactions s) = Promise_all (pageResponse s) (windowCreation s)
  ∧ returned (reactions s)
    = outcome (this s) (pageResponse s) (windowCreation s).
Proof.
  unfold reactions, all_then, outcome.
  intros [[Hj Hr]|(Hne & Hj & Hr)].
  - rewrite Hj.
    destruct (Promise_all (pageResponse s) (windowCreation s))
      as [|[p u]|r]; simpl.
    + split; assumption.
    + destruct (pr_success p); simpl; rewrite Hr;
        destruct (child_reachable s); simpl; split; reflexivity.
    + rewrite Hr. split; reflexivity.
  - destruct (joined s) eqn:E; [congruence| |];
      (split; [rewrite E; exact Hj|exact Hr]).
Qed.

(** Once the join is settled, no event changes what it is computed from. *)
Lemma Promise_all_sticky (p : promise PageResolve Reason)
    (w : promise unit Reason) ev :
  Promise_all p w ≠ Pending →
  Promise_all (page_step p ev) (rpc_step w ev) = Promise_all p w.
Proof.
  destruct p, w, ev; simpl; try congruence;
    try (destruct (decide _); simpl; congruence).
Qed.

Lemma outcome_pending (h : _Window) (p : promise PageResolve Reason)
    (w : promise unit Reason) :
  Promise_all p w = Pending → outcome h p w = Pending.
Proof. unfold outcome. intros ->. reflexivity. Qed.

(** The invariant is kept by every turn of the event loop, and the two
    completion sources follow the events. *)
Lemma step_spec s ev :
  Inv s →
  Inv (step s ev)
  ∧ pageResponse (step s ev) = page_step (pageResponse s) ev
  ∧ windowCreation (step s ev) = rpc_step (windowCreation s) ev
  ∧ this (step s ev) = this s
  ∧ heap (step s ev) = heap s
  ∧ ∃ t, trace (step s ev) = trace s ++ t.
Proof.
  intros HI.
  destruct (task_spec s ev HI)
    as (Hp & Hw & Hj & Hr & Hh & Hhp & _ & Hreg & Ht & (t1 & Htr)).
  destruct (reactions_frame (task s ev))
    as (Fp & Fw & Freg & Fh & Fhp & _ & (t2 & Hq & Ftr)).
  destruct HI as [_ Ij Ir _].
  assert (Hjoin :
    joined (step s ev)
      = Promise_all (pageResponse (task s ev)) (windowCreation (task s ev))
    ∧ returned (step s ev)
      = outcome (this (task s ev)) (pageResponse (task s ev))
          (windowCreation (task s ev))).
  { apply reactions_join. rewrite Hj, Hr.
    assert (joined s = Pending ∨ joined s ≠ Pending) as [E|E]
      by (destruct (joined s); [left; reflexivity | right; discriminate
                               | right; discriminate]).
    - left. split; [exact E|]. rewrite Ir. apply outcome_pending.
      rewrite <- Ij. exact E.
    - right. split; [exact E|].
      assert (Hs : Promise_all (pageResponse (task s ev))
                     (windowCreation (task s ev))
                   = Promise_all (pageResponse s) (windowCreation s)).
      { rewrite Hp, Hw. apply Promise_all_sticky. rewrite <- Ij. exact E. }
      split; [rewrite Hs; exact Ij|].
      unfold outcome. rewrite Hs, Hh. exact Ir. }
  destruct Hjoin as [Hj' Hr'].
  unfold step in *. split; [|repeat split].
  - constructor.
    + rewrite Freg, Fp. exact Hreg.
    + rewrite Fp, Fw. exact Hj'.
    + rewrite Fp, Fw, Fh. exact Hr'.
    + rewrite Fp, Ftr. apply trace_ok_append; assumption.
  - rewrite Fp. exact Hp.
  - rewrite Fw. exact Hw.
  - rewrite Fh. exact Hh.
  - rewrite Fhp. exact Hhp.
  - exists (t1 ++ t2). rewrite Ftr, Htr, app_assoc. reflexivity.
Qed.

Lemma run_spec s (evs : list Event) :
  Inv s →
  Inv (run s evs)
  ∧ pageResponse (run s evs) = foldl page_step (pageResponse s) evs
  ∧ windowCreation (run s evs) = foldl rpc_step (windowCreation s) evs
  ∧ this (run s evs) = this s
  ∧ heap (run s evs) = heap s
  ∧ ∃ t, trace (run s evs) = trace s ++ t.
Proof.
  revert s. induction evs as [|ev evs IH]; intros s HI.
  - simpl. split_and!; try reflexivity; [exact HI|].
    exists []. now rewrite app_nil_r.
  - destruct (step_spec s ev HI) as (HI' & Hp & Hw & Hh & Hhp & t1 & Ht).
    destruct (IH (step s ev) HI') as (HI'' & Hp' & Hw' & Hh' & Hhp' & t2 & Ht').
    unfold run in *. simpl. split_and!.
    + exact HI''.
    + rewrite Hp', Hp. reflexivity.
    + rewrite Hw', Hw. reflexivity.
    + rewrite Hh', Hh. reflexivity.
    + rewrite Hhp', Hhp. reflexivity.
    + exists (t1 ++ t2). rewrite Ht', Ht, app_assoc. reflexivity.
Qed.

(** The promise [createWindow] returned, after any events, is the join of
    the first constructor notification and the first settlement of the
    RPC. *)
Lemma returned_run s (evs : list Event) :
  Inv s →
  returned (run s evs)
  = outcome (this s) (foldl page_step (pageResponse s) evs)
      (foldl rpc_step (windowCreation s) evs).
Proof.
  intros HI.
  destruct (run_spec s evs HI) as ([_ _ Hr _] & Hp & Hw & Hh & _).
  rewrite Hr, Hp, Hw, Hh. reflexivity.
Qed.

(** The state [createWindow] returns in. *)
Lemma createWindow_spec (h : _Window) (hp : gmap nat WindowOption)
    (reachable : bool) (l : nat) (o : WindowOption) :
  hp !! l = Some o →
  ∃ s0, createWindow h hp reachable l = Some s0
    ∧ Inv s0
    ∧ this s0 = h
    ∧ pageResponse s0 = Pending
    ∧ windowCreation s0 = Pending
    ∧ heap s0 = <[ l := set_defaults o ]> hp
    ∧ trace s0 = [ did_on CONSTRUCTOR_CB_TOPIC fireConstructor;
                   did_createChildWindow l (set_defaults o) ].
Proof.
  intros Hl. unfold createWindow. rewrite Hl. eexists. split; [reflexivity|].
  split_and!; try reflexivity.
  constructor; try reflexivity.
  simpl. repeat constructor.
Qed.

Lemma create_spec (me : Identity) (hp : gmap nat WindowOption)
    (reachable : bool) (l : nat) (o : WindowOption) :
  hp !! l = Some o →
  ∃ s0, create me hp reachable l = Some s0
    ∧ Inv s0
    ∧ this s0 = new_Window {| uuid := uuid me; name := named (opt_name o) |}
    ∧ pageResponse s0 = Pending
    ∧ windowCreation s0 = Pending
    ∧ heap s0 = <[ l := set_defaults o ]> hp
    ∧ trace s0 = [ did_on CONSTRUCTOR_CB_TOPIC fireConstructor;
                   did_createChildWindow l (set_defaults o) ].
Proof.
  intros Hl. unfold create. rewrite Hl.
  exact (createWindow_spec _ hp reachable l o Hl).
Qed.

(** *** The completion sources as folds over the events *)

Lemma fold_page_fulfilled (p : PageResolve) (evs : list Event) :
  foldl page_step (Fulfilled p) evs = Fulfilled p.
Proof.
  induction evs as [|[topic r| |e] evs IH]; simpl;
    [reflexivity | | exact IH | exact IH].
  destruct (decide _); exact IH.
Qed.

Lemma fold_rpc_settled (w : promise unit Reason) (evs : list Event) :
  settled w = true → foldl rpc_step w evs = w.
Proof.
  intros Hw. induction evs as [|[topic r| |e] evs IH]; simpl;
    [reflexivity|..]; destruct w; try discriminate; exact IH.
Qed.

Lemma fold_rpc_notifications (w : promise unit Reason) (evs : list Event) :
  Forall (λ ev, is_notification ev = true) evs →
  foldl rpc_step w evs = w.
Proof.
  induction 1 as [|[topic r| |e] evs Hn _ IH]; simpl;
    try discriminate; [reflexivity|exact IH].
Qed.

(** A fulfilled [pageResponse] comes from a constructor notification among
    the events. *)
Lemma fold_page_origin (p0 : promise PageResolve Reason) (q : PageResolve)
    (evs : list Event) :
  foldl page_step p0 evs = Fulfilled q →
  p0 = Fulfilled q
  ∨ ∃ r, q = page_of r ∧ Notify CONSTRUCTOR_CB_TOPIC r ∈ evs.
Proof.
  revert p0. induction evs as [|ev evs IH]; intros p0 H; [left; exact H|].
  simpl in H. destruct (IH _ H) as [E|(r & -> & Hin)].
  - destruct ev as [topic r| |e]; simpl in E; try (left; exact E).
    destruct (decide (topic = CONSTRUCTOR_CB_TOPIC)) as [->|]; [|left; exact E].
    destruct p0; simpl in E; [|left; exact E|discriminate].
    right. exists r. split; [congruence|repeat constructor].
  - right. exists r. split; [reflexivity|]. constructor. exact Hin.
Qed.

Lemma fold_page_not_rejected (evs : list Event) (x : Reason) :
  foldl page_step Pending evs ≠ Rejected x.
Proof.
  assert (G : ∀ p0, (∀ y, p0 ≠ Rejected y) →
                    foldl page_step p0 evs ≠ Rejected x).
  { induction evs as [|ev evs IH]; intros p0 H; [apply H|].
    simpl. apply IH. intros y.
    destruct ev as [topic r| |e]; simpl; try apply H.
    destruct (decide _); [|apply H].
    destruct p0; simpl; try discriminate. apply H. }
  apply G. discriminate.
Qed.

(** A fulfilled RPC promise comes from an [RpcResolved] among the events. *)
Lemma fold_rpc_origin (w0 : promise unit Reason) (evs : list Event) :
  foldl rpc_step w0 evs = Fulfilled tt →
  w0 = Fulfilled tt ∨ RpcResolved ∈ evs.
Proof.
  revert w0. induction evs as [|ev evs IH]; intros w0 H; [left; exact H|].
  simpl in H. destruct (IH _ H) as [E|Hin].
  - destruct ev as [topic r| |e]; simpl in E.
    + left. exact E.
    + right. constructor.
    + destruct w0; simpl in E; try discriminate. left. exact E.
  - right. constructor. exact Hin.
Qed.

(** What a fulfilled [returned] says about the two sources. *)
Lemma outcome_fulfilled (h w : _Window) (p : promise PageResolve Reason)
    (r : promise unit Reason) :
  outcome h p r = Fulfilled w →
  w = h ∧ r = Fulfilled tt
  ∧ ∃ q, p = Fulfilled q ∧ pr_success q = true.
Proof.
  unfold outcome.
  destruct p as [|q|x], r as [|[]|y]; simpl; try discriminate.
  destruct (pr_success q) eqn:E; [|discriminate].
  intros [= <-]. split_and!; try reflexivity. exists q. split; [reflexivity|exact E].
Qed.



(** Events that bring no constructor notification and no rejection. *)
Lemma fold_page_waiting (evs : list Event) :
  Forall (λ ev, ev = RpcResolved
                ∨ ∃ topic r, ev = Notify topic r
                             ∧ topic ≠ CONSTRUCTOR_CB_TOPIC) evs →
  foldl page_step Pending evs = (Pending : promise PageResolve Reason).
Proof.
  induction 1 as [|ev evs [->|(topic & r & -> & Hne)] _ IH];
    simpl; [reflexivity|exact IH|].
  rewrite decide_False by exact Hne. exact IH.
Qed.

Lemma fold_rpc_not_rejected (evs : list Event) :
  Forall (λ ev, ev = RpcResolved
                ∨ ∃ topic r, ev = Notify topic r
                             ∧ topic ≠ CONSTRUCTOR_CB_TOPIC) evs →
  ∀ w : promise unit Reason,
    (∀ x, w ≠ Rejected x) → ∀ x, foldl rpc_step w evs ≠ Rejected x.
Proof.
  induction 1 as [|ev evs [->|(topic & r & -> & Hne)] _ IH];
    intros w Hw; simpl; [exact Hw| |apply IH; exact Hw].
  apply IH. intros x. destruct w; simpl; try discriminate. apply Hw.
Qed.

Lemma quiet_counts (t : list Effect) :
  quiet t → fire_count t = 0 ∧ resolve_count t = 0.
Proof.
  unfold fire_count, resolve_count.
  induction 1 as [|e t He _ [IH1 IH2]]; [split; reflexivity|].
  destruct e; try discriminate He; simpl; split; assumption.
Qed.

Lemma fire_count_app (a b : list Effect) :
  fire_count (a ++ b) = fire_count a + fire_count b.
Proof. unfold fire_count. now rewrite List.filter_app, length_app. Qed.

Lemma resolve_count_app (a b : list Effect) :
  resolve_count (a ++ b) = resolve_count a + resolve_count b.
Proof. unfold resolve_count. now rewrite List.filter_app, length_app. Qed.

Lemma fired_once_counts (t : list Effect) (p : PageResolve) :
  fired_once t p → fire_count t = 1 ∧ resolve_count t = 1.
Proof.
  intros (t1 & t2 & r & -> & H1 & H2 & _).
  destruct (quiet_counts t1 H1) as [F1 R1].
  destruct (quiet_counts t2 H2) as [F2 R2].
  rewrite !fire_count_app, !resolve_count_app, F1, F2, R1, R2.
  split; reflexivity.
Qed.

Lemma set_defaults_spec (o : WindowOption) :
  set_defaults o
  = {| opt_name := opt_name o; url := url o;
       waitForPageLoad := Some (default false (waitForPageLoad o));
       autoShow := Some (default true (autoShow o));
       opt_rest := opt_rest o |}.
Proof.
  destruct o as [n u [w|] [a|] rest]; reflexivity.
Qed.

(** *** The handshake as the caller of [create] sees it *)

(** C1: the promise of [create] is pending as long as no constructor
    notification has been delivered, however often the creation RPC reports
    success and whatever arrives on other topics; a successful constructor
    notification after the RPC has resolved fulfils it with the handle; and
    whenever it is fulfilled, both an [RpcResolved] and a successful
    constructor notification are among the events seen. *)
Theorem create_is_a_rendezvous (me : Identity) (hp : gmap nat WindowOption)
    (reachable : bool) (l : nat) (o : WindowOption) :
  hp !! l = Some o →
  ∃ s0, create me hp reachable l = Some s0
    ∧ (∀ evs,
         Forall (λ ev, ev = RpcResolved
                       ∨ ∃ topic r, ev = Notify topic r
                                    ∧ topic ≠ CONSTRUCTOR_CB_TOPIC) evs →
         returned (run s0 evs) = Pending)
    ∧ (∀ r, success r = true →
         returned (run s0 [RpcResolved; Notify CONSTRUCTOR_CB_TOPIC r])
         = Fulfilled
             (new_Window {| uuid := uuid me; name := named (opt_name o) |}))
    ∧ (∀ evs w,
         returned (run s0 evs) = Fulfilled w →
         RpcResolved ∈ evs
         ∧ ∃ r, success r = true ∧ Notify CONSTRUCTOR_CB_TOPIC r ∈ evs).
Proof.
  intros Hl.
  destruct (create_spec me hp reachable l o Hl)
    as (s0 & Hc & HI & Hh & Hp & Hw & _).
  exists s0. split; [exact Hc|]. split_and!.
  - intros evs Hevs. rewrite (returned_run s0 evs HI), Hp, Hw.
    apply outcome_pending.
    rewrite (fold_page_waiting evs Hevs).
    destruct (foldl rpc_step Pending evs) as [|u|x] eqn:E;
      try reflexivity.
    destruct (fold_rpc_not_rejected evs Hevs Pending ltac:(discriminate) x E).
  - intros r Hr. rewrite (returned_run s0 _ HI), Hp, Hw, Hh.
    unfold outcome. simpl. rewrite Hr. reflexivity.
  - intros evs w H. rewrite (returned_run s0 evs HI), Hp, Hw in H.
    apply outcome_fulfilled in H as (_ & Hrpc & q & Hq & Hs).
    split.
    + apply fold_rpc_origin in Hrpc as [?|?]; [discriminate|assumption].
    + apply fold_page_origin in Hq as [?|(r & -> & Hin)]; [discriminate|].
      exists r. split; [exact Hs|exact Hin].
Qed.

Lemma create_is_a_rendezvous_witness :
  ({[ 0 := example_options ]} : gmap nat WindowOption) !! 0
    = Some example_options
  ∧ ∃ s0, create example_me {[ 0 := example_options ]} false 0 = Some s0
      ∧ returned (run s0 [RpcResolved]) = Pending
      ∧ returned (run s0 [RpcResolved;
                          Notify CONSTRUCTOR_CB_TOPIC example_success])
        = Fulfilled (new_Window {| uuid := "app"; name := named "w1" |}).
Proof.
  split; [reflexivity|].
  destruct (create_is_a_rendezvous example_me {[ 0 := example_options ]}
              false 0 example_options)
    as (s0 & Hc & Hpend & Hok & _); [reflexivity|].
  exists s0. split; [exact Hc|]. split.
  - apply Hpend. repeat constructor.
  - apply (Hok example_success). reflexivity.
Defined.

(** C2: if the creation RPC is rejected with [e] (the first settlement of
    the RPC is a rejection, whatever notifications came before), the
    promise of [create] is rejected with [e] itself, and stays so whatever
    arrives afterwards. *)
Theorem create_rejects_with_rpc_rejection (me : Identity)
    (hp : gmap nat WindowOption) (reachable : bool) (l : nat)
    (o : WindowOption) :
  hp !! l = Some o →
  ∃ s0, create me hp reachable l = Some s0
    ∧ ∀ (before after : list Event) (e : value),
        Forall (λ ev, is_notification ev = true) before →
        returned (run s0 (before ++ RpcRejected e :: after))
        = Rejected (reason_value e).
Proof.
  intros Hl.
  destruct (create_spec me hp reachable l o Hl)
    as (s0 & Hc & HI & Hh & Hp & Hw & _).
  exists s0. split; [exact Hc|]. intros before after e Hn.
  rewrite (returned_run s0 _ HI), Hp, Hw.
  rewrite (foldl_app rpc_step), (fold_rpc_notifications _ _ Hn). simpl.
  rewrite fold_rpc_settled by reflexivity.
  unfold outcome.
  destruct (foldl page_step Pending (before ++ RpcRejected e :: after))
    as [|q|x] eqn:E; simpl; try reflexivity.
  destruct (fold_page_not_rejected _ _ E).
Qed.

Lemma create_rejects_with_rpc_rejection_witness :
  ({[ 0 := example_options ]} : gmap nat WindowOption) !! 0
    = Some example_options
  ∧ ∃ s0, create example_me {[ 0 := example_options ]} false 0 = Some s0
      ∧ returned (run s0 [RpcRejected (VString "denied");
                          Notify CONSTRUCTOR_CB_TOPIC example_success])
        = Rejected (reason_value (VString "denied")).
Proof.
  split; [reflexivity|].
  destruct (create_rejects_with_rpc_rejection example_me
              {[ 0 := example_options ]} false 0 example_options)
    as (s0 & Hc & Hrej); [reflexivity|].
  exists s0. split; [exact Hc|].
  apply (Hrej [] [Notify CONSTRUCTOR_CB_TOPIC example_success]).
  constructor.
Defined.

(** C3: if the creation RPC resolves and the first constructor
    notification reports [success: false], in either order, the promise of
    [create] is rejected with an object whose [cbPayload] carries the
    [message], [networkErrorCode] and [stack] of the notification, and
    stays so whatever arrives afterwards. *)
Theorem create_rejects_with_failure_payload (me : Identity)
    (hp : gmap nat WindowOption) (reachable : bool) (l : nat)
    (o : WindowOption) :
  hp !! l = Some o →
  ∃ s0, create me hp reachable l = Some s0
    ∧ ∀ (r : Response) (after : list Event),
        success r = false →
        let failure :=
          reason_page
            {| pr_message := message (data r);
               pr_cbPayload :=
                 cb_failure (message (data r)) (networkErrorCode (data r))
                   (stack (data r));
               pr_success := false |} in
        returned (run s0 (RpcResolved :: Notify CONSTRUCTOR_CB_TOPIC r
                          :: after))
        = Rejected failure
        ∧ returned (run s0 (Notify CONSTRUCTOR_CB_TOPIC r :: RpcResolved
                            :: after))
          = Rejected failure.
Proof.
  intros Hl.
  destruct (create_spec me hp reachable l o Hl)
    as (s0 & Hc & HI & Hh & Hp & Hw & _).
  exists s0. split; [exact Hc|]. intros r after Hr. cbv zeta.
  rewrite !(returned_run s0 _ HI), Hp, Hw. simpl.

  rewrite fold_page_fulfilled, fold_rpc_settled by reflexivity.
  unfold outcome, page_of. simpl. rewrite Hr. split; reflexivity.
Qed.

Lemma create_rejects_with_failure_payload_witness :
  ({[ 0 := example_options ]} : gmap nat WindowOption) !! 0
    = Some example_options
  ∧ ∃ s0, create example_me {[ 0 := example_options ]} false 0 = Some s0
      ∧ returned (run s0 [RpcResolved;
                          Notify CONSTRUCTOR_CB_TOPIC example_failure])
        = Rejected
            (reason_page
               {| pr_message := VString "net::ERR_FAILED";
                  pr_cbPayload :=
                    cb_failure (VString "net::ERR_FAILED")
                      (VNumber (Finite (-2))) (VString "at load");
                  pr_success := false |}).
Proof.
  split; [reflexivity|].
  destruct (create_rejects_with_failure_payload example_me
              {[ 0 := example_options ]} false 0 example_options)
    as (s0 & Hc & Hrej); [reflexivity|].
  exists s0. split; [exact Hc|].
  apply (Hrej example_failure []). reflexivity.
Defined.

(** C4: in every run of a creation attempt the listener
    [fireConstructor] is entered at most once and resolves [pageResponse]
    at most once: either it has not run, or the trace holds exactly one
    block in which the listener is entered, removes its registration and
    only then resolves [pageResponse], and the registry no longer holds it.
    In particular a notification delivered twice enters it once. *)
Theorem fireConstructor_fires_at_most_once (me : Identity)
    (hp : gmap nat WindowOption) (reachable : bool) (l : nat)
    (o : WindowOption) :
  hp !! l = Some o →
  ∃ s0, create me hp reachable l = Some s0
    ∧ (∀ evs,
         (fire_count (trace (run s0 evs)) ≤ 1)%nat
         ∧ (resolve_count (trace (run s0 evs)) ≤ 1)%nat
         ∧ ((pageResponse (run s0 evs) = Pending
             ∧ quiet (trace (run s0 evs)))
            ∨ (∃ t1 t2 r,
                 pageResponse (run s0 evs) = Fulfilled (page_of r)
                 ∧ trace (run s0 evs)
                   = t1 ++ [ did_enter_fireConstructor r;
                             did_removeListener CONSTRUCTOR_CB_TOPIC
                               fireConstructor;
                             did_resolve_pageResponse (page_of r) ] ++ t2
                 ∧ quiet t1 ∧ quiet t2
                 ∧ registry (run s0 evs) = [])))
    ∧ (∀ r r',
         fire_count
           (trace (run s0 [ Notify CONSTRUCTOR_CB_TOPIC r;
                            Notify CONSTRUCTOR_CB_TOPIC r' ])) = 1
         ∧ pageResponse (run s0 [ Notify CONSTRUCTOR_CB_TOPIC r;
                                  Notify CONSTRUCTOR_CB_TOPIC r' ])
           = Fulfilled (page_of r)).
Proof.
  intros Hl.
  destruct (create_spec me hp reachable l o Hl)
    as (s0 & Hc & HI & Hh & Hp & Hw & _).
  exists s0. split; [exact Hc|].
  assert (G : ∀ evs,
    (pageResponse (run s0 evs) = Pending ∧ quiet (trace (run s0 evs)))
    ∨ (∃ t1 t2 r,
         pageResponse (run s0 evs) = Fulfilled (page_of r)
         ∧ trace (run s0 evs)
           = t1 ++ [ did_enter_fireConstructor r;
                     did_removeListener CONSTRUCTOR_CB_TOPIC fireConstructor;
                     did_resolve_pageResponse (page_of r) ] ++ t2
         ∧ quiet t1 ∧ quiet t2
         ∧ registry (run s0 evs) = [])).
  { intros evs.
    destruct (run_spec s0 evs HI) as ([Hreg _ _ Ht] & _).
    destruct (pageResponse (run s0 evs)) as [|p|x]; simpl in *.
    - left. split; [reflexivity|exact Ht].
    - right. destruct Ht as (t1 & t2 & r & Etr & H1 & H2 & ->).
      exists t1, t2, r. split_and!; try reflexivity; assumption.
    - destruct Ht. }
  split.
  - intros evs.
    destruct (G evs) as [[_ Hq]|(t1 & t2 & r & _ & Etr & H1 & H2 & _)].
    + destruct (quiet_counts _ Hq) as [-> ->].
      split_and!; [lia | lia | exact (G evs)].
    + assert (Hf : fired_once (trace (run s0 evs)) (page_of r)).
      { exists t1, t2, r. split_and!; try reflexivity; assumption. }
      apply fired_once_counts in Hf as [-> ->].
      split_and!; [lia | lia | exact (G evs)].
  - intros r r'.
    destruct (run_spec s0 [ Notify CONSTRUCTOR_CB_TOPIC r;
                               Notify CONSTRUCTOR_CB_TOPIC r' ] HI)
      as ([_ _ _ Ht] & Hpr & _).
    assert (E : foldl page_step Pending
                  [ Notify CONSTRUCTOR_CB_TOPIC r;
                    Notify CONSTRUCTOR_CB_TOPIC r' ]
                = Fulfilled (page_of r)) by reflexivity.
    rewrite Hp, E in Hpr. rewrite Hpr in Ht |- *.
    split; [|reflexivity].
    apply fired_once_counts in Ht as [Hf _]. exact Hf.
Qed.

Lemma fireConstructor_fires_at_most_once_witness :
  ({[ 0 := example_options ]} : gmap nat WindowOption) !! 0
    = Some example_options
  ∧ ∃ s0, create example_me {[ 0 := example_options ]} false 0 = Some s0
      ∧ (fire_count
           (trace (run s0 [ Notify CONSTRUCTOR_CB_TOPIC example_success;
                            Notify CONSTRUCTOR_CB_TOPIC example_success;
                            RpcResolved ])) ≤ 1)%nat.
Proof.
  split; [reflexivity|].
  destruct (fireConstructor_fires_at_most_once example_me
              {[ 0 := example_options ]} false 0 example_options)
    as (s0 & Hc & Hall & _); [reflexivity|].
  exists s0. split; [exact Hc|].
  apply (Hall [ Notify CONSTRUCTOR_CB_TOPIC example_success;
                Notify CONSTRUCTOR_CB_TOPIC example_success;
                RpcResolved ]).
Defined.

(** *** Defaults of the creation options *)

(** C5 (as amended): the object [createChildWindow] is called with has
    [waitForPageLoad] and [autoShow] set, to the caller's value or else to
    [false] and [true]; its [url], its name and its other fields are as the
    caller gave them, a missing [url] included.  It is the caller's own
    object, with these contents at the time of the call. *)
Theorem create_defaults_before_rpc (me : Identity)
    (hp : gmap nat WindowOption) (reachable : bool) (l : nat)
    (o : WindowOption) :
  hp !! l = Some o →
  ∃ s0, create me hp reachable l = Some s0
    ∧ createChildWindow_calls (trace s0)
      = [ (l, {| opt_name := opt_name o; url := url o;
                 waitForPageLoad := Some (default false (waitForPageLoad o));
                 autoShow := Some (default true (autoShow o));
                 opt_rest := opt_rest o |}) ].
Proof.
  intros Hl.
  destruct (create_spec me hp reachable l o Hl)
    as (s0 & Hc & _ & _ & _ & _ & _ & Htr).
  exists s0. split; [exact Hc|].
  rewrite Htr, set_defaults_spec. reflexivity.
Qed.

Lemma create_defaults_before_rpc_witness :
  ({[ 0 := example_options ]} : gmap nat WindowOption) !! 0
    = Some example_options
  ∧ ∃ s0, create example_me {[ 0 := example_options ]} false 0 = Some s0
      ∧ createChildWindow_calls (trace s0)
        = [ (0, {| opt_name := "w1"; url := None;
                   waitForPageLoad := Some false; autoShow := Some true;
                   opt_rest := ∅ |}) ].
Proof.
  split; [reflexivity|].
  exact (create_defaults_before_rpc example_me {[ 0 := example_options ]}
           false 0 example_options eq_refl).
Defined.

(** C5 (as stated) fails: for options that give only a name, the creation
    RPC is called with an object whose [url] is still missing, not
    "about:blank". *)
Lemma create_leaves_url_unset :
  (λ s, (λ c, url c.2) <$> createChildWindow_calls (trace s))
    <$> create example_me {[ 0 := example_options ]} false 0
  = Some [ None ]
  ∧ (None : option string) ≠ Some "about:blank".
Proof. split; [reflexivity | discriminate]. Qed.

(** C10: [create] writes the defaults into the object the caller passed:
    from the return of [create] on, whatever events follow, the caller's
    reference leads to an object whose [waitForPageLoad] and [autoShow] are
    set, [false] and [true] where the caller had left them out, and whose
    other fields are unchanged; this is the object the creation RPC was
    called with, and no other object changes. *)
Theorem create_mutates_caller_options (me : Identity)
    (hp : gmap nat WindowOption) (reachable : bool) (l : nat)
    (o : WindowOption) :
  hp !! l = Some o →
  ∃ s0 o', create me hp reachable l = Some s0
    ∧ (waitForPageLoad o = None → waitForPageLoad o' = Some false)
    ∧ (autoShow o = None → autoShow o' = Some true)
    ∧ (∀ b, waitForPageLoad o = Some b → waitForPageLoad o' = Some b)
    ∧ (∀ b, autoShow o = Some b → autoShow o' = Some b)
    ∧ opt_name o' = opt_name o ∧ url o' = url o ∧ opt_rest o' = opt_rest o
    ∧ createChildWindow_calls (trace s0) = [ (l, o') ]
    ∧ ∀ evs,
        heap (run s0 evs) !! l = Some o'
        ∧ ∀ l', l' ≠ l → heap (run s0 evs) !! l' = hp !! l'.
Proof.
  intros Hl.
  destruct (create_spec me hp reachable l o Hl)
    as (s0 & Hc & HI & _ & _ & _ & Hhp & Htr).
  exists s0, (set_defaults o). split; [exact Hc|].
  rewrite Htr, set_defaults_spec. simpl.
  split_and!; try reflexivity; try (intros ->; reflexivity);
    try (intros b ->; reflexivity).
  intros evs. destruct (run_spec s0 evs HI) as (_ & _ & _ & _ & -> & _).
  rewrite Hhp, set_defaults_spec. split.
  - apply lookup_insert_eq.
  - intros l' Hne. apply lookup_insert_ne. congruence.
Qed.

Lemma create_mutates_caller_options_witness :
  ({[ 0 := example_options ]} : gmap nat WindowOption) !! 0
    = Some example_options
  ∧ ∃ s0 o', create example_me {[ 0 := example_options ]} false 0 = Some s0
      ∧ heap s0 !! 0 = Some o'
      ∧ waitForPageLoad o' = Some false
      ∧ autoShow o' = Some true.
Proof.
  split; [reflexivity|].
  destruct (create_mutates_caller_options example_me
              {[ 0 := example_options ]} false 0 example_options)
    as (s0 & o' & Hc & Hw & Ha & _ & _ & _ & _ & _ & _ & Hheap);
    [reflexivity|].
  exists s0, o'. split; [exact Hc|]. split; [apply (Hheap [])|].
  split; [apply Hw | apply Ha]; reflexivity.
Defined.

(** The example of the specification: [create({name: "w1"})] against a
    runtime that resolves the RPC and then reports success. *)
Example create_w1 :
  (λ s, returned (run s [ RpcResolved;
                          Notify CONSTRUCTOR_CB_TOPIC example_success ]))
    <$> create example_me {[ 0 := example_options ]} true 0
  = Some (Fulfilled (new_Window {| uuid := "app"; name := named "w1" |})).
Proof. reflexivity. Qed.

End Handshake.

(** * Further properties *)

Import Coverage.

(** ** Requests *)

Lemma identity_object_uuid (i : Identity) :
  identity_object i !! "uuid" = Some (VString (uuid i)).
Proof. unfold identity_object. destruct (name i); reflexivity. Qed.

Lemma identity_object_name (i : Identity) (n : string) :
  name i = named n → identity_object i !! "name" = Some (VString n).
Proof. intros Hn. unfold identity_object. rewrite Hn. reflexivity. Qed.

Lemma with_identity_uuid (extra : gmap string value) (i : Identity) :
  with_identity extra i !! "uuid" = Some (VString (uuid i)).
Proof.
  unfold with_identity, Object_assign.
  apply lookup_union_Some_l, identity_object_uuid.
Qed.

Lemma with_identity_name (extra : gmap string value) (i : Identity)
    (n : string) :
  name i = named n → with_identity extra i !! "name" = Some (VString n).
Proof.
  intros Hn. unfold with_identity, Object_assign.
  apply lookup_union_Some_l, identity_object_name, Hn.
Qed.

(** An identity that has the [name] key puts its value in every payload. *)
Lemma request_name (i : Identity) (c : Call) :
  name i ≠ name_absent →
  payload (request i c) !! "name" = Some (name_value (name i)).
Proof.
  intros Hn.
  assert (E : identity_object i !! "name" = Some (name_value (name i)))
    by (unfold identity_object; destruct (name i); [congruence| |];
        reflexivity).
  destruct c; cbn [request payload];
    lazymatch goal with
    | |- with_identity _ _ !! _ = _ =>
        unfold with_identity, Object_assign;
        apply lookup_union_Some_l, E
    | |- identity_object _ !! _ = _ => exact E
    end.
Qed.

(** X1: the payload of every method carries the uuid of the handle, and
    its name when it has one, whatever the arguments are: no argument can
    overwrite them, not even a [bounds] object with a [uuid] or [name] of
    its own.  An identity whose [name] key holds [undefined] sends
    [undefined] under that key, also over an argument's [name]. *)
Theorem request_carries_identity (i : Identity) (c : Call) :
  payload (request i c) !! "uuid" = Some (VString (uuid i))
  ∧ (∀ n, name i = named n →
          payload (request i c) !! "name" = Some (VString n))
  ∧ (name i = name_undefined →
     payload (request i c) !! "name" = Some VUndefined).
Proof.
  split; [|split;
           [|intros Hn; rewrite request_name by congruence;
             rewrite Hn; reflexivity]].
  - destruct c; cbn [request payload];
      lazymatch goal with
      | |- with_identity _ _ !! _ = _ => apply with_identity_uuid
      | |- identity_object _ !! _ = _ => apply identity_object_uuid
      end.
  - intros n Hn.
    destruct c; cbn [request payload];
      lazymatch goal with
      | |- with_identity _ _ !! _ = _ => apply with_identity_name, Hn
      | |- identity_object _ !! _ = _ => apply identity_object_name, Hn
      end.
Qed.

Lemma topic_table_complete (i : Identity) (c : Call) :
  ∃ ms, topic_table !! topic (request i c) = Some ms
        ∧ method_name c ∈ ms
        ∧ Forall (λ m, current_name m = current_name (method_name c)) ms.
Proof.
  destruct c; cbn [request topic method_name]; eexists;
    (split; [vm_compute; reflexivity|]); split; repeat constructor.
Qed.

(** X2: apart from the two deprecated names, no two methods share a
    topic: [disableFrame] and [enableFrame] send exactly the request of
    [disableUserMovement] and [enableUserMovement], after a warning on the
    console that no other method writes, and whenever two requests have the
    same topic their methods are the same up to these two aliases. *)
Theorem topic_determines_method (i i' : Identity) (c c' : Call) :
  topic (request i c) = topic (request i' c') →
  current_name (method_name c) = current_name (method_name c')
  ∧ request i disableFrame = request i disableUserMovement
  ∧ request i enableFrame = request i enableUserMovement
  ∧ (console_warn c ≠ None ↔ method_name c ≠ current_name (method_name c)).
Proof.
  intros H. split_and!; try reflexivity.
  - destruct (topic_table_complete i c) as (ms & E & _ & Hms).
    destruct (topic_table_complete i' c') as (ms' & E' & Hin' & _).
    rewrite H, E' in E. injection E as <-.
    rewrite Forall_forall in Hms. symmetry. apply Hms, Hin'.
  - destruct c; cbn [console_warn method_name]; vm_compute;
      split; intros G; first [discriminate | congruence | exfalso; apply G; reflexivity].
Qed.

Lemma topic_determines_method_witness :
  topic (request example_me disableFrame)
    = topic (request {| uuid := "app"; name := named "w1" |}
               disableUserMovement)
  ∧ current_name (method_name disableFrame)
    = current_name (method_name disableUserMovement).
Proof.
  split; [cbn [request topic]; reflexivity|].
  apply (topic_determines_method example_me
           {| uuid := "app"; name := named "w1" |}).
  cbn [request topic]. reflexivity.
Defined.

Lemma Math_floor_idempotent (n : number) :
  Math_floor (Math_floor n) = Math_floor n.
Proof.
  destruct n as [q| | |]; unfold Math_floor; try reflexivity.
  now rewrite Qfloor_Z.
Qed.

(** X3: flooring on the wire is idempotent: [resizeTo], [resizeBy] and
    [showAt] send the same request for already floored arguments as for the
    original ones, so feeding back what was sent changes nothing. *)
Theorem flooring_methods_idempotent (i : Identity) (a b : number)
    (anchor : value) (force : option bool)
    (options : option WindowMovementOptions) :
  request i (resizeTo (Math_floor a) (Math_floor b) anchor options)
    = request i (resizeTo a b anchor options)
  ∧ request i (resizeBy (Math_floor a) (Math_floor b) anchor options)
    = request i (resizeBy a b anchor options)
  ∧ request i (showAt (Math_floor a) (Math_floor b) force options)
    = request i (showAt a b force options).
Proof.
  cbn [request]. rewrite !Math_floor_idempotent. repeat split.
Qed.



(** ** Life cycle of a handle *)

(** X5: [close] sends one [close-window] request with [force] defaulting
    to [false]; when the runtime rejects it the handle is not poisoned and
    every later call still sends its request. *)
Theorem rejected_close_does_not_poison (i : Identity) (force : option bool)
    (reason : value) (c : Call) (wire wire' : list Action) :
  invoke (new_Window i) (close force) wire
  = (Returned,
     wire ++ [ {| topic := "close-window";
                  payload :=
                    with_identity
                      {[ "force" :=
                           VBool (match force with
                                  | Some b => b
                                  | None => false
                                  end) ]} i |} ])
  ∧ invoke (close_settled (new_Window i) (Nack reason)) c wire'
    = (Returned, wire' ++ [request i c]).
Proof.
  split.
  - rewrite invoke_new_Window. cbn [request]. destruct force; reflexivity.
  - cbn [close_settled]. apply invoke_new_Window.
Qed.

(** X6: poisoning is per object, not per identity: a new handle made for
    the identity of a closed one sends its requests as usual, to the
    identity of the closed window. *)
Theorem closed_identity_can_be_wrapped_again (h : _Window) (c : Call)
    (wire : list Action) :
  identity (close_settled h Ack) = identity h
  ∧ invoke (new_Window (identity (close_settled h Ack))) c wire
    = (Returned, wire ++ [request (identity h) c]).
Proof.
  split; [reflexivity|]. cbn [close_settled close_then identity].
  apply invoke_new_Window.
Qed.

(** ** Groups *)

(** X7: every local handle [getGroup] returns is usable and addresses the
    window of the entry it was made from: its identity is the literal
    [{ uuid, name }] of that entry, a call on it sends one request made from
    that identity, and the [name] that request carries is the entry's name,
    or [undefined] for an entry without name, whatever the arguments. *)
Theorem getGroup_members_are_live (data : list GroupWindowIdentity)
    (w : _Window) (c : Call) (wire : list Action) :
  Local w ∈ getGroup_then data →
  (∃ e, e ∈ data ∧ truthy (isExternalWindow e) = false
        ∧ identity w = {| uuid := g_uuid e;
                          name := entry_name (g_name e) |}
        ∧ payload (request (identity w) c) !! "uuid"
          = Some (VString (g_uuid e))
        ∧ payload (request (identity w) c) !! "name"
          = Some (match g_name e with
                  | Some n => VString n
                  | None => VUndefined
                  end))
  ∧ invoke w c wire = (Returned, wire ++ [request (identity w) c]).
Proof.
  rewrite getGroup_then_resolver. unfold windowListFromNameList.
  intros (e & Hw & He)%list_elem_of_fmap.
  unfold window_from_name in Hw.
  destruct (truthy (isExternalWindow e)) eqn:E; [discriminate|].
  injection Hw as ->. split.
  - exists e. split_and!; [exact He | exact E | reflexivity | |].
    + destruct c; cbn [request payload];
        lazymatch goal with
        | |- with_identity _ _ !! _ = _ => apply with_identity_uuid
        | |- identity_object _ !! _ = _ => apply identity_object_uuid
        end.
    + rewrite request_name; cbn [new_Window identity name];
        destruct (g_name e); try reflexivity; discriminate.
  - apply invoke_new_Window.
Qed.

Lemma getGroup_members_are_live_witness :
  Local (new_Window {| uuid := "app"; name := name_undefined |})
    ∈ getGroup_then
        [ {| g_uuid := "app"; g_name := None; isExternalWindow := None |} ]
  ∧ invoke (new_Window {| uuid := "app"; name := name_undefined |})
      (setBounds {[ "name" := VString "x" ]} None) []
    = (Returned,
       [ request {| uuid := "app"; name := name_undefined |}
           (setBounds {[ "name" := VString "x" ]} None) ]).
Proof.
  assert (H : Local (new_Window {| uuid := "app"; name := name_undefined |})
              ∈ getGroup_then
                  [ {| g_uuid := "app"; g_name := None;
                       isExternalWindow := None |} ])
    by repeat constructor.
  split; [exact H|].
  exact (proj2 (getGroup_members_are_live _ _
                  (setBounds {[ "name" := VString "x" ]} None) [] H)).
Defined.

(** A handle made from an entry without name sends [name: undefined], also
    over a [name] in the bounds given to [setBounds]. *)
Example nameless_member_setBounds :
  payload (request {| uuid := "app"; name := name_undefined |}
             (setBounds {[ "name" := VString "x" ]} None)) !! "name"
  = Some VUndefined.
Proof. vm_compute. reflexivity. Qed.

(** X8: joining or merging with a foreign member obtained from the
    resolver sends the uuid of its entry as [groupingUuid] and no window
    name: [groupingWindowName] is [undefined], whatever name the entry
    had. *)
Theorem joinGroup_with_foreign_member (i : Identity)
    (e : GroupWindowIdentity) :
  truthy (isExternalWindow e) = true →
  let target := member_identity (window_from_name e) in
  payload (request i (joinGroup target)) !! "groupingUuid"
    = Some (VString (g_uuid e))
  ∧ payload (request i (joinGroup target)) !! "groupingWindowName"
    = Some VUndefined
  ∧ payload (request i (mergeGroups target))
    = payload (request i (joinGroup target)).
Proof.
  intros He. unfold window_from_name. rewrite He.
  cbn [member_identity ext_identity request payload uuid name name_value].
  rewrite !with_identity_lookup by discriminate.
  split_and!; try reflexivity.
Qed.

Lemma joinGroup_with_foreign_member_witness :
  truthy (Some true) = true
  ∧ payload
      (request example_me
         (joinGroup
            (member_identity
               (window_from_name
                  {| g_uuid := "ext"; g_name := Some "notepad";
                     isExternalWindow := Some true |}))))
      !! "groupingWindowName"
    = Some VUndefined.
Proof.
  split; [reflexivity|].
  exact (proj1 (proj2
    (joinGroup_with_foreign_member example_me
       {| g_uuid := "ext"; g_name := Some "notepad";
          isExternalWindow := Some true |} eq_refl))).
Defined.

(** X9: [getGroup] returns one handle per entry of the reply, in the order
    of the reply, for every reply, the empty one included: the length test
    in its callback never changes the result of the resolver. *)
Theorem getGroup_is_pointwise (data : list GroupWindowIdentity) :
  getGroup_then data = windowListFromNameList data
  ∧ length (getGroup_then data) = length data
  ∧ Forall2 resolves data (getGroup_then data).
Proof.
  assert (E : getGroup_then data = windowListFromNameList data)
    by (unfold getGroup_then; destruct data; reflexivity).
  rewrite E. split; [reflexivity|]. unfold windowListFromNameList. split.
  - apply length_fmap.
  - clear E. induction data as [|e data IH]; [constructor|].
    constructor; [apply window_from_name_resolves | exact IH].
Qed.

(** ** Wrapping an existing window *)

(** X10: [wrap] and [wrapSync] agree on every identity and for every
    validator: [wrap] is fulfilled with the handle [wrapSync] returns and
    rejected with the message of the [Error] it throws; [getCurrent] and
    [getCurrentSync] are the two applied to the transport's [me]. *)
Theorem wrap_agrees_with_wrapSync
    (validateIdentity : Identity → option string) (identity me : Identity) :
  wrap validateIdentity identity
  = match wrapSync validateIdentity identity with
    | threw_Error message => Rejected message
    | wrapped w => Fulfilled w
    end
  ∧ getCurrent validateIdentity me
    = match getCurrentSync validateIdentity me with
      | threw_Error message => Rejected message
      | wrapped w => Fulfilled w
      end.
Proof.
  unfold getCurrent, getCurrentSync, wrap, wrapSync.
  split.
  - destruct (validateIdentity identity) as [m|]; [|reflexivity].
    destruct (bool_decide (m ≠ "")); reflexivity.
  - destruct (validateIdentity me) as [m|]; [|reflexivity].
    destruct (bool_decide (m ≠ "")); reflexivity.
Qed.

(** X11: round trip through [wrapSync]: when the validator reports
    nothing (or an empty message), the handle has exactly the identity
    given, and any call on it sends exactly one request, after those
    already sent, carrying that identity's uuid. *)
Theorem wrapSync_then_call
    (validateIdentity : Identity → option string) (i : Identity)
    (c : Call) (wire : list Action) :
  validateIdentity i = None ∨ validateIdentity i = Some "" →
  ∃ w, wrapSync validateIdentity i = wrapped w
    ∧ identity w = i
    ∧ invoke w c wire = (Returned, wire ++ [request i c])
    ∧ payload (request i c) !! "uuid" = Some (VString (uuid i)).
Proof.
  intros Hv. exists (new_Window i). split_and!.
  - unfold wrapSync. destruct Hv as [-> | ->]; reflexivity.
  - reflexivity.
  - apply invoke_new_Window.
  - destruct c; cbn [request payload];
      lazymatch goal with
      | |- with_identity _ _ !! _ = _ => apply with_identity_uuid
      | |- identity_object _ !! _ = _ => apply identity_object_uuid
      end.
Qed.

Lemma wrapSync_then_call_witness :
  ∃ w, wrapSync (λ _, None) example_me = wrapped w
    ∧ identity w = example_me
    ∧ invoke w getBounds [] = (Returned, [request example_me getBounds])
    ∧ payload (request example_me getBounds) !! "uuid"
      = Some (VString (uuid example_me)).
Proof.
  exact (wrapSync_then_call (λ _, None) example_me getBounds []
           (or_introl eq_refl)).
Defined.

(** X12: a validator message makes [wrapSync] throw an [Error] with
    exactly that message and [wrap] reject with it; no handle is made. *)
Theorem wrap_reports_validation_error
    (validateIdentity : Identity → option string) (i : Identity)
    (message : string) :
  validateIdentity i = Some message → message ≠ "" →
  wrapSync validateIdentity i = threw_Error message
  ∧ wrap validateIdentity i = Rejected message.
Proof.
  intros Hv Hm. unfold wrapSync, wrap. rewrite Hv.
  rewrite bool_decide_eq_true_2 by exact Hm. split; reflexivity.
Qed.

Lemma wrap_reports_validation_error_witness :
  wrapSync (λ _, Some "Not a valid identity object") example_me
    = threw_Error "Not a valid identity object"
  ∧ wrap (λ _, Some "Not a valid identity object") example_me
    = Rejected "Not a valid identity object".
Proof.
  apply (wrap_reports_validation_error
           (λ _, Some "Not a valid identity object") example_me
           "Not a valid identity object"); [reflexivity | discriminate].
Defined.

(** ** More on the creation handshake *)

Section Handshake_coverage.

Implicit Types (s : State) (ev : Event).

Lemma opener_count_app (a b : list Effect) :
  opener_count (a ++ b) = opener_count a + opener_count b.
Proof. unfold opener_count. now rewrite List.filter_app, length_app. Qed.

Lemma settle_count_app (a b : list Effect) :
  settle_count (a ++ b) = settle_count a + settle_count b.
Proof. unfold settle_count. now rewrite List.filter_app, length_app. Qed.

Lemma listener_only_app (a b : list Effect) :
  listener_only a → listener_only b → listener_only (a ++ b).
Proof. intros Ha Hb. apply Forall_app. split; assumption. Qed.

Lemma listener_only_counts (t : list Effect) :
  listener_only t →
  List.filter is_setup t = [] ∧ opener_count t = 0 ∧ settle_count t = 0.
Proof.
  unfold opener_count, settle_count.
  induction 1 as [|e t (H1 & H2 & H3) _ (IH1 & IH2 & IH3)];
    [split_and!; reflexivity|].
  simpl. rewrite H1, H2, H3. split_and!; assumption.
Qed.

(** A listener touches neither the join nor the returned promise, for any
    state of the handle. *)
Lemma call_listener_frame (response : Response) s (fn : Listener) :
  joined (call_listener response s fn) = joined s
  ∧ returned (call_listener response s fn) = returned s
  ∧ windowCreation (call_listener response s fn) = windowCreation s
  ∧ child_reachable (call_listener response s fn) = child_reachable s
  ∧ ∃ t, listener_only t ∧ trace (call_listener response s fn) = trace s ++ t.
Proof.
  destruct fn; simpl; split_and!; try reflexivity.
  eexists. split; [|rewrite <- !app_assoc; reflexivity].
  repeat constructor.
Qed.

Lemma fold_listeners_frame (response : Response) (fns : list Listener) s :
  joined (foldl (call_listener response) s fns) = joined s
  ∧ returned (foldl (call_listener response) s fns) = returned s
  ∧ windowCreation (foldl (call_listener response) s fns) = windowCreation s
  ∧ child_reachable (foldl (call_listener response) s fns)
    = child_reachable s
  ∧ ∃ t, listener_only t
         ∧ trace (foldl (call_listener response) s fns) = trace s ++ t.
Proof.
  revert s. induction fns as [|fn fns IH]; intros s.
  - simpl. split_and!; try reflexivity.
    exists []. split; [constructor | now rewrite app_nil_r].
  - simpl.
    destruct (IH (call_listener response s fn))
      as (Hj & Hr & Hw & Hc & t2 & H2 & Ht2).
    destruct (call_listener_frame response s fn)
      as (Hj' & Hr' & Hw' & Hc' & t1 & H1 & Ht1).
    split_and!; try congruence.
    exists (t1 ++ t2). split; [apply listener_only_app; assumption|].
    rewrite Ht2, Ht1, app_assoc. reflexivity.
Qed.

(** The task of an event leaves the join as it is and adds only listener
    effects to the trace. *)
Lemma task_frame s ev :
  joined (task s ev) = joined s
  ∧ returned (task s ev) = returned s
  ∧ child_reachable (task s ev) = child_reachable s
  ∧ ∃ t, listener_only t ∧ trace (task s ev) = trace s ++ t.
Proof.
  destruct ev as [topic response| |e].
  - unfold task, deliver.
    destruct (fold_listeners_frame response
                (Emitter.listeners topic (registry s)) s)
      as (Hj & Hr & _ & Hc & Ht).
    split_and!; assumption.
  - simpl. split_and!; try reflexivity.
    exists []. split; [constructor | now rewrite app_nil_r].
  - simpl. split_and!; try reflexivity.
    exists []. split; [constructor | now rewrite app_nil_r].
Qed.

Lemma reactions_setup s :
  child_reachable (reactions s) = child_reachable s
  ∧ ∃ t, List.filter is_setup t = []
         ∧ trace (reactions s) = trace s ++ t.
Proof.
  unfold reactions, all_then.
  destruct (joined s);
    [destruct (Promise_all (pageResponse s) (windowCreation s))
       as [|[p u]|r] | |]; simpl;
    try destruct (pr_success p); simpl;
    try destruct (child_reachable s) eqn:Hc; simpl;
    (split; [first [reflexivity | exact Hc]|]);
    (eexists; split;
     [|first [symmetry; apply app_nil_r
             |rewrite <- ?app_assoc; reflexivity]]);
    reflexivity.
Qed.

Lemma reactions_accounted s : join_accounted s → join_accounted (reactions s).
Proof.
  unfold join_accounted, reactions, all_then. intros [Ho Hs].
  destruct (joined s) eqn:Ej;
    [destruct (Promise_all (pageResponse s) (windowCreation s))
       as [|[p u]|r] | |]; simpl;
    try destruct (pr_success p); simpl;
    try destruct (child_reachable s) eqn:Hc; simpl;
    rewrite ?Ej, ?Hc, ?opener_count_app, ?settle_count_app, ?Ho, ?Hs;
    simpl; rewrite ?Hc; split; reflexivity.
Qed.

Lemma step_accounted s ev : join_accounted s → join_accounted (step s ev).
Proof.
  intros [Ho Hs]. unfold step. apply reactions_accounted.
  destruct (task_frame s ev) as (Hj & _ & Hc & t & Ht & Htr).
  destruct (listener_only_counts t Ht) as (_ & Hto & Hts).
  unfold join_accounted.
  rewrite Hj, Hc, Htr, opener_count_app, settle_count_app, Hto, Hts.
  rewrite !Nat.add_0_r. split; assumption.
Qed.

Lemma run_accounted s (evs : list Event) :
  join_accounted s → join_accounted (run s evs).
Proof.
  revert s. induction evs as [|ev evs IH]; intros s H; [exact H|].
  apply (IH (step s ev)), step_accounted, H.
Qed.

Lemma step_setup s ev :
  child_reachable (step s ev) = child_reachable s
  ∧ List.filter is_setup (trace (step s ev))
    = List.filter is_setup (trace s).
Proof.
  unfold step.
  destruct (task_frame s ev) as (_ & _ & Hc & t1 & Ht1 & Htr1).
  destruct (reactions_setup (task s ev)) as (Hc' & t2 & Ht2 & Htr2).
  destruct (listener_only_counts t1 Ht1) as (Hs1 & _ & _).
  split; [congruence|].
  rewrite Htr2, Htr1, !List.filter_app, Hs1, Ht2, !app_nil_r. reflexivity.
Qed.

Lemma run_setup s (evs : list Event) :
  child_reachable (run s evs) = child_reachable s
  ∧ List.filter is_setup (trace (run s evs))
    = List.filter is_setup (trace s).
Proof.
  revert s. induction evs as [|ev evs IH]; intros s; [split; reflexivity|].
  destruct (IH (step s ev)) as [H1 H2].
  destruct (step_setup s ev) as [H3 H4].
  unfold run in *. simpl. split; congruence.
Qed.

Lemma is_fulfilled_Promise_all (p : promise PageResolve Reason)
    (w : promise unit Reason) :
  is_fulfilled (Promise_all p w) = is_fulfilled p && is_fulfilled w.
Proof. destruct p, w; reflexivity. Qed.

Lemma settled_outcome (h : _Window) (p : promise PageResolve Reason)
    (w : promise unit Reason) :
  settled (outcome h p w) = settled (Promise_all p w).
Proof.
  unfold outcome. destruct (Promise_all p w) as [|[q u]|r]; try reflexivity.
  destruct (pr_success q); reflexivity.
Qed.


Lemma calls_of_setup (t : list Effect) :
  createChildWindow_calls t = createChildWindow_calls (List.filter is_setup t).
Proof.
  unfold createChildWindow_calls.
  induction t as [|e t IH]; [reflexivity|].
  destruct e; simpl; first [exact IH | f_equal; exact IH].
Qed.

Lemma outcome_step_sticky (h : _Window) (p : promise PageResolve Reason)
    (w : promise unit Reason) (more : list Event) :
  outcome h p w ≠ Pending →
  outcome h (foldl page_step p more) (foldl rpc_step w more) = outcome h p w.
Proof.
  revert p w. induction more as [|ev more IH]; intros p w H; [reflexivity|].
  assert (Hpa : Promise_all p w ≠ Pending)
    by (intros E; apply H, outcome_pending, E).
  assert (E : outcome h (page_step p ev) (rpc_step w ev) = outcome h p w)
    by (unfold outcome; rewrite (Promise_all_sticky p w ev Hpa); reflexivity).
  simpl. rewrite IH; rewrite E; [reflexivity | exact H].
Qed.

Lemma fold_page_relevant (p : promise PageResolve Reason)
    (evs : list Event) :
  foldl page_step p (List.filter relevant evs) = foldl page_step p evs.
Proof.
  revert p. induction evs as [|[topic r| |e] evs IH]; intros p; simpl;
    try apply IH; [reflexivity|].
  destruct (decide (topic = CONSTRUCTOR_CB_TOPIC)) as [->|Hne].
  - simpl. apply IH.
  - rewrite bool_decide_eq_false_2 by exact Hne. apply IH.
Qed.

Lemma fold_rpc_relevant (w : promise unit Reason) (evs : list Event) :
  foldl rpc_step w (List.filter relevant evs) = foldl rpc_step w evs.
Proof.
  revert w. induction evs as [|[topic r| |e] evs IH]; intros w; simpl;
    try apply IH; [reflexivity|].
  destruct (bool_decide (topic = CONSTRUCTOR_CB_TOPIC)); simpl; apply IH.
Qed.

Lemma fold_page_notifications (p : promise PageResolve Reason)
    (evs : list Event) :
  foldl page_step p (List.filter is_notification evs) = foldl page_step p evs.
Proof.
  revert p. induction evs as [|[topic r| |e] evs IH]; intros p; simpl;
    try apply IH; reflexivity.
Qed.

Lemma fold_rpc_events (w : promise unit Reason) (evs : list Event) :
  foldl rpc_step w (List.filter is_rpc_event evs) = foldl rpc_step w evs.
Proof.
  revert w. induction evs as [|[topic r| |e] evs IH]; intros w; simpl;
    try apply IH; reflexivity.
Qed.

Lemma set_defaults_idempotent (o : WindowOption) :
  set_defaults (set_defaults o) = set_defaults o.
Proof. destruct o as [n u [w|] [a|] rest]; reflexivity. Qed.

(** X13: a creation attempt registers its listener once and issues the
    creation RPC once, with the defaulted options, and no event ever makes
    it do either again. *)
Theorem create_sets_up_once (me : Identity) (hp : gmap nat WindowOption)
    (reachable : bool) (l : nat) (o : WindowOption) :
  hp !! l = Some o →
  ∃ s0, create me hp reachable l = Some s0
    ∧ ∀ evs,
        List.filter is_setup (trace (run s0 evs))
        = [ did_on CONSTRUCTOR_CB_TOPIC fireConstructor;
            did_createChildWindow l (set_defaults o) ]
        ∧ createChildWindow_calls (trace (run s0 evs))
          = [ (l, set_defaults o) ].
Proof.
  intros Hl.
  destruct (create_spec me hp reachable l o Hl)
    as (s0 & Hc & _ & _ & _ & _ & _ & Htr).
  exists s0. split; [exact Hc|]. intros evs.
  destruct (run_setup s0 evs) as [_ Hs]. rewrite Htr in Hs.
  split; [exact Hs|]. rewrite calls_of_setup, Hs. reflexivity.
Qed.

Lemma create_sets_up_once_witness :
  ∃ s0, create example_me {[ 0 := example_options ]} false 0 = Some s0
    ∧ createChildWindow_calls
        (trace (run s0 [ Notify CONSTRUCTOR_CB_TOPIC example_failure;
                         RpcResolved; RpcResolved ]))
      = [ (0, set_defaults example_options) ].
Proof.
  destruct (create_sets_up_once example_me {[ 0 := example_options ]}
              false 0 example_options) as (s0 & Hc & H); [reflexivity|].
  exists s0. split; [exact Hc|]. apply H.
Defined.

(** X14: the hook [openerSuccessCBCalled] of the child is invoked exactly
    once when the child can be reached and both the constructor
    notification and the creation RPC have come in, and never otherwise:
    not when the RPC was rejected, and also when the page reported failure
    and [create] was rejected. *)
Theorem opener_hook_called_once_after_join (me : Identity)
    (hp : gmap nat WindowOption) (reachable : bool) (l : nat)
    (o : WindowOption) :
  hp !! l = Some o →
  ∃ s0, create me hp reachable l = Some s0
    ∧ (∀ evs,
         opener_count (trace (run s0 evs))
         = if reachable && is_fulfilled (pageResponse (run s0 evs))
              && is_fulfilled (windowCreation (run s0 evs))
           then 1 else 0)
    ∧ (∀ r after,
         success r = false →
         returned (run s0 (RpcResolved :: Notify CONSTRUCTOR_CB_TOPIC r
                           :: after))
         = Rejected (reason_page (page_of r))
         ∧ opener_count
             (trace (run s0 (RpcResolved :: Notify CONSTRUCTOR_CB_TOPIC r
                             :: after)))
           = if reachable then 1 else 0).
Proof.
  intros Hl.
  destruct (create_spec me hp reachable l o Hl)
    as (s0 & Hc & HI & Hh & Hp & Hw & _ & Htr).
  exists s0. split; [exact Hc|].
  assert (Hreach : child_reachable s0 = reachable).
  { unfold create in Hc. rewrite Hl in Hc. unfold createWindow in Hc.
    rewrite Hl in Hc. injection Hc as <-. reflexivity. }
  assert (Hacc : join_accounted s0).
  { destruct HI as [_ Hj _ _]. unfold join_accounted.
    rewrite Hj, Hp, Hw, Htr, andb_false_r. split; reflexivity. }
  assert (G : ∀ evs,
    opener_count (trace (run s0 evs))
    = if reachable && is_fulfilled (pageResponse (run s0 evs))
         && is_fulfilled (windowCreation (run s0 evs))
      then 1 else 0).
  { intros evs.
    destruct (run_accounted s0 evs Hacc) as [Ho _].
    destruct (run_spec s0 evs HI) as ([_ Hj _ _] & _).
    destruct (run_setup s0 evs) as [Hcr _].
    rewrite Ho, Hcr, Hreach, Hj, is_fulfilled_Promise_all, andb_assoc.
    reflexivity. }
  split; [exact G|]. intros r after Hr.
  rewrite G.
  destruct (run_spec s0 (RpcResolved :: Notify CONSTRUCTOR_CB_TOPIC r
                            :: after) HI) as (_ & Hpr & Hwr & _).
  rewrite (returned_run s0 _ HI), Hpr, Hwr, Hp, Hw. simpl.
  rewrite fold_page_fulfilled, fold_rpc_settled by reflexivity.
  unfold outcome. simpl. rewrite Hr, andb_true_r, andb_true_r.
  split; reflexivity.
Qed.

Lemma opener_hook_called_once_after_join_witness :
  ∃ s0, create example_me {[ 0 := example_options ]} true 0 = Some s0
    ∧ opener_count
        (trace (run s0 [ RpcResolved;
                         Notify CONSTRUCTOR_CB_TOPIC example_failure ]))
      = 1.
Proof.
  destruct (opener_hook_called_once_after_join example_me
              {[ 0 := example_options ]} true 0 example_options)
    as (s0 & Hc & _ & H); [reflexivity|].
  exists s0. split; [exact Hc|].
  exact (proj2 (H example_failure [] eq_refl)).
Defined.

(** X15: [resolve] or [reject] of the promise [createWindow] returns is
    called exactly once in a run in which that promise is settled and never
    in a run in which it is pending: there is no second attempt to settle
    it. *)
Theorem returned_promise_settled_by_one_call (me : Identity)
    (hp : gmap nat WindowOption) (reachable : bool) (l : nat)
    (o : WindowOption) :
  hp !! l = Some o →
  ∃ s0, create me hp reachable l = Some s0
    ∧ ∀ evs,
        settle_count (trace (run s0 evs))
        = if settled (returned (run s0 evs)) then 1 else 0.
Proof.
  intros Hl.
  destruct (create_spec me hp reachable l o Hl)
    as (s0 & Hc & HI & Hh & Hp & Hw & _ & Htr).
  exists s0. split; [exact Hc|]. intros evs.
  assert (Hacc : join_accounted s0).
  { destruct HI as [_ Hj _ _]. unfold join_accounted.
    rewrite Hj, Hp, Hw, Htr, andb_false_r. split; reflexivity. }
  destruct (run_accounted s0 evs Hacc) as [_ Hs].
  destruct (run_spec s0 evs HI) as ([_ Hj Hr _] & _).
  rewrite Hs, Hr, settled_outcome, Hj. reflexivity.
Qed.

Lemma returned_promise_settled_by_one_call_witness :
  ∃ s0, create example_me {[ 0 := example_options ]} true 0 = Some s0
    ∧ settle_count
        (trace (run s0 [ RpcRejected VUndefined; RpcResolved;
                         Notify CONSTRUCTOR_CB_TOPIC example_success ]))
      = if settled
             (returned
                (run s0 [ RpcRejected VUndefined; RpcResolved;
                          Notify CONSTRUCTOR_CB_TOPIC example_success ]))
        then 1 else 0.
Proof.
  destruct (returned_promise_settled_by_one_call example_me
              {[ 0 := example_options ]} true 0 example_options)
    as (s0 & Hc & H); [reflexivity|].
  exists s0. split; [exact Hc|]. apply H.
Defined.

(** X16: the outcome of [create] is final: once the returned promise is
    fulfilled or rejected, no further notification or RPC settlement
    changes it. *)
Theorem create_outcome_is_final (me : Identity)
    (hp : gmap nat WindowOption) (reachable : bool) (l : nat)
    (o : WindowOption) :
  hp !! l = Some o →
  ∃ s0, create me hp reachable l = Some s0
    ∧ ∀ evs more,
        returned (run s0 evs) ≠ Pending →
        returned (run s0 (evs ++ more)) = returned (run s0 evs).
Proof.
  intros Hl.
  destruct (create_spec me hp reachable l o Hl)
    as (s0 & Hc & HI & _).
  exists s0. split; [exact Hc|]. intros evs more H.
  rewrite (returned_run s0 evs HI) in H.
  rewrite !(returned_run s0 _ HI), !foldl_app.
  apply outcome_step_sticky, H.
Qed.

Lemma create_outcome_is_final_witness :
  ∃ s0, create example_me {[ 0 := example_options ]} true 0 = Some s0
    ∧ returned
        (run s0 ([ RpcResolved; Notify CONSTRUCTOR_CB_TOPIC example_success ]
                 ++ [ Notify CONSTRUCTOR_CB_TOPIC example_failure;
                      RpcRejected VUndefined ]))
      = returned
          (run s0 [ RpcResolved;
                    Notify CONSTRUCTOR_CB_TOPIC example_success ]).
Proof.
  destruct (create_outcome_is_final example_me {[ 0 := example_options ]}
              true 0 example_options) as (s0 & Hc & H); [reflexivity|].
  exists s0. split; [exact Hc|]. apply H.
  unfold create in Hc. vm_compute in Hc. injection Hc as <-.
  vm_compute. discriminate.
Defined.

(** X17: notifications on other topics never matter to [create]: removing
    them from the events leaves the returned promise as it is. *)
Theorem other_topics_are_ignored (me : Identity)
    (hp : gmap nat WindowOption) (reachable : bool) (l : nat)
    (o : WindowOption) :
  hp !! l = Some o →
  ∃ s0, create me hp reachable l = Some s0
    ∧ ∀ evs,
        returned (run s0 (List.filter relevant evs)) = returned (run s0 evs).
Proof.
  intros Hl.
  destruct (create_spec me hp reachable l o Hl)
    as (s0 & Hc & HI & _).
  exists s0. split; [exact Hc|]. intros evs.
  rewrite !(returned_run s0 _ HI), fold_page_relevant, fold_rpc_relevant.
  reflexivity.
Qed.

Lemma other_topics_are_ignored_witness :
  ∃ s0, create example_me {[ 0 := example_options ]} true 0 = Some s0
    ∧ returned
        (run s0 (List.filter relevant
                   [ Notify "shown" example_failure; RpcResolved ]))
      = returned (run s0 [ Notify "shown" example_failure; RpcResolved ]).
Proof.
  destruct (other_topics_are_ignored example_me {[ 0 := example_options ]}
              true 0 example_options) as (s0 & Hc & H); [reflexivity|].
  exists s0. split; [exact Hc|]. apply H.
Defined.

(** X18: the order in which notifications and RPC settlements interleave
    does not matter: two runs with the same notifications in the same order
    and the same RPC settlements in the same order leave [create] with the
    same outcome. *)
Theorem interleaving_does_not_matter (me : Identity)
    (hp : gmap nat WindowOption) (reachable : bool) (l : nat)
    (o : WindowOption) (evs evs' : list Event) :
  hp !! l = Some o →
  List.filter is_notification evs = List.filter is_notification evs' →
  List.filter is_rpc_event evs = List.filter is_rpc_event evs' →
  ∃ s0, create me hp reachable l = Some s0
    ∧ returned (run s0 evs) = returned (run s0 evs').
Proof.
  intros Hl Hn Hr.
  destruct (create_spec me hp reachable l o Hl)
    as (s0 & Hc & HI & _).
  exists s0. split; [exact Hc|].
  rewrite !(returned_run s0 _ HI).
  rewrite <- (fold_page_notifications _ evs), <- (fold_rpc_events _ evs).
  rewrite <- (fold_page_notifications _ evs'), <- (fold_rpc_events _ evs').
  rewrite Hn, Hr. reflexivity.
Qed.

Lemma interleaving_does_not_matter_witness :
  ∃ s0, create example_me {[ 0 := example_options ]} true 0 = Some s0
    ∧ returned (run s0 [ RpcResolved;
                         Notify CONSTRUCTOR_CB_TOPIC example_success ])
      = returned (run s0 [ Notify CONSTRUCTOR_CB_TOPIC example_success;
                           RpcResolved ]).
Proof.
  apply (interleaving_does_not_matter example_me {[ 0 := example_options ]}
           true 0 example_options
           [ RpcResolved; Notify CONSTRUCTOR_CB_TOPIC example_success ]
           [ Notify CONSTRUCTOR_CB_TOPIC example_success; RpcResolved ]);
    reflexivity.
Defined.

(** X19: the best-effort step cannot change the result: whether or not
    the child context can be reached, [create] ends with the same returned
    promise, and the hook is never invoked when it cannot. *)
Theorem child_reachability_does_not_change_outcome (me : Identity)
    (hp : gmap nat WindowOption) (l : nat) (o : WindowOption) :
  hp !! l = Some o →
  ∃ s s', create me hp true l = Some s
    ∧ create me hp false l = Some s'
    ∧ ∀ evs,
        returned (run s evs) = returned (run s' evs)
        ∧ opener_count (trace (run s' evs)) = 0.
Proof.
  intros Hl.
  destruct (create_spec me hp true l o Hl)
    as (s & Hc & HI & Hh & Hp & Hw & _ & Htr).
  destruct (create_spec me hp false l o Hl)
    as (s' & Hc' & HI' & Hh' & Hp' & Hw' & _ & Htr').
  exists s, s'. split_and!; [exact Hc | exact Hc' |]. intros evs. split.
  - rewrite (returned_run s evs HI), (returned_run s' evs HI').
    rewrite Hh, Hh', Hp, Hp', Hw, Hw'. reflexivity.
  - assert (Hreach : child_reachable s' = false).
    { unfold create in Hc'. rewrite Hl in Hc'. unfold createWindow in Hc'.
      rewrite Hl in Hc'. injection Hc' as <-. reflexivity. }
    assert (Hacc : join_accounted s').
    { destruct HI' as [_ Hj _ _]. unfold join_accounted.
      rewrite Hj, Hp', Hw', Htr', andb_false_r. split; reflexivity. }
    destruct (run_accounted s' evs Hacc) as [Ho _].
    destruct (run_setup s' evs) as [Hcr _].
    rewrite Ho, Hcr, Hreach. reflexivity.
Qed.

Lemma child_reachability_does_not_change_outcome_witness :
  ∃ s s', create example_me {[ 0 := example_options ]} true 0 = Some s
    ∧ create example_me {[ 0 := example_options ]} false 0 = Some s'
    ∧ returned (run s [ RpcResolved;
                        Notify CONSTRUCTOR_CB_TOPIC example_success ])
      = returned (run s' [ RpcResolved;
                           Notify CONSTRUCTOR_CB_TOPIC example_success ]).
Proof.
  destruct (child_reachability_does_not_change_outcome example_me
              {[ 0 := example_options ]} 0 example_options)
    as (s & s' & Hc & Hc' & H); [reflexivity|].
  exists s, s'. split_and!; [exact Hc | exact Hc' | apply H].
Defined.

(** X21: an options object that went through [create] once is left
    untouched by a second [create]: the defaults are already there, so the
    second call writes the same values and sends the same options. *)
Theorem create_again_with_same_options (me me' : Identity)
    (hp : gmap nat WindowOption) (reachable reachable' : bool) (l : nat)
    (o : WindowOption) :
  hp !! l = Some o →
  ∃ s0 s1, create me hp reachable l = Some s0
    ∧ create me' (heap s0) reachable' l = Some s1
    ∧ heap s1 = heap s0
    ∧ createChildWindow_calls (trace s1)
      = createChildWindow_calls (trace s0).
Proof.
  intros Hl.
  destruct (create_spec me hp reachable l o Hl)
    as (s0 & Hc & _ & _ & _ & _ & Hhp & Htr).
  assert (Hl' : heap s0 !! l = Some (set_defaults o))
    by (rewrite Hhp; apply lookup_insert_eq).
  destruct (create_spec me' (heap s0) reachable' l _ Hl')
    as (s1 & Hc1 & _ & _ & _ & _ & Hhp1 & Htr1).
  exists s0, s1. split_and!; [exact Hc | exact Hc1 | |].
  - rewrite Hhp1, set_defaults_idempotent, Hhp. apply insert_insert_eq.
  - rewrite Htr1, Htr, set_defaults_idempotent. reflexivity.
Qed.

Lemma create_again_with_same_options_witness :
  ∃ s0 s1,
    create example_me {[ 0 := example_options ]} true 0 = Some s0
    ∧ create example_me (heap s0) false 0 = Some s1
    ∧ heap s1 = heap s0.
Proof.
  destruct (create_again_with_same_options example_me example_me
              {[ 0 := example_options ]} true false 0 example_options
             )
    as (s0 & s1 & Hc & Hc1 & Hh & _); [reflexivity|].
  exists s0, s1. split_and!; assumption.
Defined.

End Handshake_coverage.
